(** * w3af [core/data/parsers/baseparser.py]: the abstract document parser

    A shallow embedding of [BaseParser]: its constructor, the regular
    expression URL extraction [_regex_url_parse], the URL decoder
    [_decode_url] and the capability methods.  The code is Python 2: a
    [str] is a sequence of bytes, a [unicode] a sequence of code points. *)

From Stdlib Require Import String Ascii List NArith Lia Bool.
Import ListNotations.
Local Open Scope N_scope.

(** ** Python values *)

(** Bytes of a [str] and code points of a [unicode], as numbers. *)
Definition seq := list N.

Definition lit (s : string) : seq :=
  map N_of_ascii (list_ascii_of_string s).

(** A Python 2 string object: [str] or [unicode]. *)
Inductive pystring : Type :=
| Str (bytes : seq)
| Unicode (points : seq).

(** The exceptions the module raises, catches or lets through.
    [UnicodeError] is a subclass of [ValueError] in Python, and
    [UnicodeEncodeError] and [UnicodeDecodeError] are subclasses of
    [UnicodeError]; [AssertionError] and [NotImplementedError] are not
    [ValueError]s. *)
Inductive exn : Type :=
| ValueError (msg : string)
| UnicodeError
| UnicodeEncodeError
| UnicodeDecodeError
| AssertionError
| NotImplementedError (msg : string).

Definition isinstance_ValueError (e : exn) : bool :=
  match e with
  | ValueError _ | UnicodeError | UnicodeEncodeError | UnicodeDecodeError =>
      true
  | AssertionError | NotImplementedError _ => false
  end.

(** A call either returns or raises. *)
Inductive result (A : Type) : Type :=
| Ok (a : A)
| Raise (e : exn).
Arguments Ok {A} a.
Arguments Raise {A} e.

Definition bind {A B} (r : result A) (k : A -> result B) : result B :=
  match r with
  | Ok a => k a
  | Raise e => Raise e
  end.

Notation "x <- r ;; k" := (bind r (fun x => k))
  (at level 61, r at next level, right associativity).

Definition isinstance_UnicodeDecodeError (e : exn) : bool :=
  match e with
  | UnicodeDecodeError => true
  | _ => false
  end.

(** [try: body / except cls: handler] *)
Definition try_except {A} (body : result A) (cls : exn -> bool)
           (handler : result A) : result A :=
  match body with
  | Ok a => Ok a
  | Raise e => if cls e then handler else Raise e
  end.

(** ** What the module imports

    [w3af.core.data.parsers.url.URL], [is_known_encoding] and the codec
    registry behind [unicode.encode] and [str.decode] live outside this
    file; they are taken as an interface. *)
Class Externals : Type := {
  (** the [URL] objects, compared by [URL.__eq__] and hashed by [__hash__] *)
  URL : Type;
  URL_eq_dec : forall u v : URL, {u = v} + {u <> v};
  URL_hash : URL -> N;
  (** [URL(text, encoding=enc)]; [None] when the constructor rejects the
      text, which it does by raising [ValueError] *)
  URL_new : seq -> string -> option URL;
  (** [u.normalize_url()], as the value the object holds afterwards *)
  normalize_url : URL -> URL;
  get_domain : URL -> string;
  get_root_domain : URL -> string;
  (** [is_known_encoding(enc)] *)
  is_known_encoding : string -> bool;
  (** [u.encode(enc)]: the bytes, or the exception the codec raises *)
  unicode_encode : string -> seq -> result seq;
  (** [s.decode(enc, 'ignore')]: the text, or the exception the codec
      raises *)
  str_decode_ignore : string -> seq -> result seq
}.

(** The [http_response] argument of the constructor. *)
Record HTTPResponse `{Externals} : Type := {
  get_charset : string;
  get_url : URL;
  get_redir_url : option URL
}.

(** ** The parser object *)

(** An entry of a Python [set]: the hash computed when the object was
    added, and the object, which [normalize_url] later mutates in place. *)
Record entry `{Externals} : Type := {
  cached_hash : N;
  obj : URL
}.

Record BaseParser `{Externals} : Type := {
  _base_url : URL;
  _baseDomain : string;
  _rootDomain : string;
  _encoding : string;
  _re_urls : list entry
}.

Section Constructor.
Context `{E : Externals}.

(** [BaseParser.__init__] *)
Definition __init__ (http_response : HTTPResponse) : result BaseParser :=
  let encoding := get_charset http_response in
  if negb (is_known_encoding encoding) then
    Raise (ValueError ("Unknown encoding: " ++ encoding))
  else
    let url := get_url http_response in
    let redir_url := get_redir_url http_response in
    let url := match redir_url with Some r => r | None => url end in
    Ok {| _base_url := url;
          _baseDomain := get_domain url;
          _rootDomain := get_root_domain url;
          _encoding := get_charset http_response;
          _re_urls := [] |}.

(** the URL the constructor resolves relative references against *)
Definition effective_base_url (r : HTTPResponse) : URL :=
  match get_redir_url r with
  | Some redir => redir
  | None => get_url r
  end.
End Constructor.

(** ** [URL_RE]

    The pattern, compiled with [re.U], is one outer group holding: the
    group [http|https], the text [://], a lazily starred group over the
    class [H] and a greedily starred class [X]; [H] is the class of word
    characters, colon, at-sign, hyphen, dot and slash, and [X] the
    complement of the class of space, newline, carriage return, tab, both
    quotes and both angle brackets.  The third group is lazy and everything it could take is also taken by
    the greedy class after it, so it always matches the empty string and a
    match is the scheme, [://] and the longest run of characters outside
    the excluded class. *)
Module URL_RE.

(** the class of space, LF, CR, TAB, double quote, quote, [<] and [>] *)
Definition excluded (c : N) : bool :=
  (c =? 32) || (c =? 10) || (c =? 13) || (c =? 9)
  || (c =? 34) || (c =? 39) || (c =? 60) || (c =? 62).

Fixpoint starts_with (p s : seq) : bool :=
  match p, s with
  | [], _ => true
  | _ :: _, [] => false
  | a :: p', c :: s' => (a =? c) && starts_with p' s'
  end.

(** the longest prefix of [s] outside the excluded class, and the rest *)
Fixpoint run (s : seq) : seq * seq :=
  match s with
  | [] => ([], [])
  | c :: s' =>
      if excluded c then ([], s)
      else let (r, rest) := run s' in (c :: r, rest)
  end.

(** A match anchored at the start of [s]: the three groups and the text
    that follows the match.  The alternation tries [http] first. *)
Definition match_at (s : seq) : option ((seq * seq * seq) * seq) :=
  if starts_with (lit "http://") s then
    let (r, rest) := run (skipn 7 s) in
    Some ((lit "http://" ++ r, lit "http", []), rest)
  else if starts_with (lit "https://") s then
    let (r, rest) := run (skipn 8 s) in
    Some ((lit "https://" ++ r, lit "https", []), rest)
  else None.

(** The scan of [findall]: leftmost match, then on from its end. *)
Fixpoint findall_from (fuel : nat) (s : seq) : list (seq * seq * seq) :=
  match fuel with
  | O => []
  | S fuel' =>
      match s with
      | [] => []
      | _ :: s' =>
          match match_at s with
          | Some (groups, rest) => groups :: findall_from fuel' rest
          | None => findall_from fuel' s'
          end
      end
  end.

Definition findall_seq (s : seq) : list (seq * seq * seq) :=
  findall_from (length s) s.

(** On a [str] the groups are [str]s, on a [unicode] they are [unicode]s. *)
Definition findall (doc_str : pystring)
  : list (pystring * pystring * pystring) :=
  match doc_str with
  | Str s =>
      map (fun '(g1, g2, g3) => (Str g1, Str g2, Str g3)) (findall_seq s)
  | Unicode s =>
      map (fun '(g1, g2, g3) => (Unicode g1, Unicode g2, Unicode g3))
          (findall_seq s)
  end.

(** [p] occurs somewhere in [s] *)
Fixpoint occurs (p s : seq) : bool :=
  starts_with p s
  || match s with
     | [] => false
     | _ :: s' => occurs p s'
     end.

(** a text that does not go on with a character a match could take *)
Definition ends_match (post : seq) : Prop :=
  match post with
  | [] => True
  | c :: _ => excluded c = true
  end.

(** a text that holds none of the excluded characters *)
Definition clean (m : seq) : Prop :=
  forallb (fun c => negb (excluded c)) m = true.

(** the characters the matches take, all together *)
Definition matched_length (ms : list (seq * seq * seq)) : nat :=
  list_sum (map (fun g => length (fst (fst g))) ms).

End URL_RE.

(** ** [urllib.unquote] on a [str] (Python 2.7) *)
Module urllib.

Definition pct : N := 37.

(** [s.split('%')] *)
Fixpoint split (s : seq) : list seq :=
  match s with
  | [] => [[]]
  | c :: s' =>
      if c =? pct then [] :: split s'
      else match split s' with
           | h :: t => (c :: h) :: t
           | [] => [[c]]
           end
  end.

(** the digits of [_hexdig = '0123456789ABCDEFabcdef'] *)
Definition hexval (c : N) : option N :=
  if (48 <=? c) && (c <=? 57) then Some (c - 48)
  else if (65 <=? c) && (c <=? 70) then Some (c - 55)
  else if (97 <=? c) && (c <=? 102) then Some (c - 87)
  else None.

(** one [item] of [bits[1:]]: [_hextochr[item[:2]] + item[2:]], or on a
    [KeyError] ['%' + item] *)
Definition unquote_item (item : seq) : seq :=
  match item with
  | a :: b :: rest =>
      match hexval a, hexval b with
      | Some x, Some y => (16 * x + y) :: rest
      | _, _ => pct :: item
      end
  | _ => pct :: item
  end.

Definition unquote (s : seq) : seq :=
  match split s with
  | [] => s
  | [_] => s
  | b0 :: items => b0 ++ concat (map unquote_item items)
  end.

(** the escape a percent sign is followed by, and the text after it *)
Definition escape_at (t : seq) : option (N * seq) :=
  match t with
  | a :: b :: r =>
      match hexval a, hexval b with
      | Some x, Some y => Some (16 * x + y, r)
      | _, _ => None
      end
  | _ => None
  end.

(** the general path of [unquote], without the shortcut for a text
    that holds no percent sign *)
Definition joined (s : seq) : seq :=
  match split s with
  | b0 :: items => b0 ++ concat (map unquote_item items)
  | [] => s
  end.

(** [tail] does not begin with a hexadecimal digit *)
Definition stops (tail : seq) : Prop :=
  match tail with
  | [] => True
  | c :: _ => hexval c = None
  end.

(** the digit of a value below 16, as [urllib.quote] writes it *)
Definition hexdigit (d : N) : N := if d <? 10 then 48 + d else 55 + d.

(** the escape of a byte: a percent sign and two hexadecimal digits *)
Definition pct_escape (b : N) : seq :=
  [pct; hexdigit (b / 16); hexdigit (b mod 16)].

End urllib.

(** ** [str.replace] and [str.decode('utf-8')] (Python 2.7) *)
Module pystr.

(** [s.replace(sch, repl)] for a search string [sch] of one byte *)
Definition replace (sch : N) (repl : seq) (s : seq) : seq :=
  flat_map (fun c => if c =? sch then repl else [c]) s.

(** the table [utf8_code_length] of the decoder: the length of the
    sequence a start byte announces, 0 for an illegal start byte *)
Definition utf8_code_length (b : N) : N :=
  if b <? 0x80 then 1
  else if b <? 0xC2 then 0
  else if b <? 0xE0 then 2
  else if b <? 0xF0 then 3
  else if b <? 0xF5 then 4
  else 0.

(** a continuation byte: [(b & 0xc0) == 0x80] *)
Definition is_cont (b : N) : bool := N.land b 0xC0 =? 0x80.

(** The strict decoder: the code points, or [None] for the
    [UnicodeDecodeError].  As in Python 2.7 the surrogate range is not
    rejected; a code point above [0xFFFF] is kept as one element. *)
Fixpoint decode_utf8 (s : seq) : option seq :=
  match s with
  | [] => Some []
  | b0 :: t0 =>
      match utf8_code_length b0 with
      | 1 => option_map (cons b0) (decode_utf8 t0)
      | 2 =>
          match t0 with
          | b1 :: t1 =>
              if negb (is_cont b1) then None
              else option_map
                     (cons (N.shiftl (N.land b0 0x1F) 6 + N.land b1 0x3F))
                     (decode_utf8 t1)
          | _ => None
          end
      | 3 =>
          match t0 with
          | b1 :: b2 :: t2 =>
              if negb (is_cont b1) || negb (is_cont b2)
                 || ((b0 =? 0xE0) && (b1 <? 0xA0)) then None
              else option_map
                     (cons (N.shiftl (N.land b0 0x0F) 12
                            + N.shiftl (N.land b1 0x3F) 6
                            + N.land b2 0x3F))
                     (decode_utf8 t2)
          | _ => None
          end
      | 4 =>
          match t0 with
          | b1 :: b2 :: b3 :: t3 =>
              if negb (is_cont b1) || negb (is_cont b2)
                 || negb (is_cont b3)
                 || ((b0 =? 0xF0) && (b1 <? 0x90))
                 || ((b0 =? 0xF4) && (0x8F <? b1)) then None
              else option_map
                     (cons (N.shiftl (N.land b0 0x07) 18
                            + N.shiftl (N.land b1 0x3F) 12
                            + N.shiftl (N.land b2 0x3F) 6
                            + N.land b3 0x3F))
                     (decode_utf8 t3)
          | _ => None
          end
      | _ => None
      end
  end.

(** [s.decode('utf-8')] *)
Definition decode_UTF8 (s : seq) : result seq :=
  match decode_utf8 s with
  | Some u => Ok u
  | None => Raise UnicodeDecodeError
  end.

(** the 256 bytes *)
Definition all_bytes : list N := map N.of_nat (List.seq 0 256).

End pystr.

(** ** The methods of [BaseParser] *)
Section Methods.
Context `{E : Externals}.

(** [SAFE_CHARS = (('\x00', '%00'),)] *)
Definition SAFE_CHARS : list (N * seq) := [(0, lit "%00")].

(** [BaseParser._decode_url] *)
Definition _decode_url (self : BaseParser) (url_string : pystring)
  : result seq :=
  let enc := _encoding self in
  url_string <-
    match url_string with
    | Unicode u => unicode_encode enc u
    | Str b => Ok b
    end ;;
  let dec_url := urllib.unquote url_string in
  let dec_url :=
    fold_left (fun d '(sch, repl) => pystr.replace sch repl d)
              SAFE_CHARS dec_url in
  try_except (pystr.decode_UTF8 dec_url)
             isinstance_UnicodeDecodeError
             (str_decode_ignore enc dec_url).

(** [URL(text, encoding=enc)] as a call that may raise *)
Definition URL_call (text : seq) (enc : string) : result URL :=
  match URL_new text enc with
  | Some u => Ok u
  | None => Raise (ValueError "Invalid URL")
  end.

(** what the [try] block of the loop computes for one match *)
Definition candidate (self : BaseParser)
           (url : pystring * pystring * pystring) : result URL :=
  text <- _decode_url self (fst (fst url)) ;;
  URL_call text (_encoding self).

(** [key in s] for a [set]: an entry matches when its stored hash is the
    hash of the key and its object compares equal to the key. *)
Definition set_contains (s : list entry) (key : URL) : bool :=
  existsb (fun e => (cached_hash e =? URL_hash key)
                    && (if URL_eq_dec (obj e) key then true else false)) s.

(** [s.add(key)]; the list keeps the entries in the order they came *)
Definition set_add (s : list entry) (key : URL) : list entry :=
  if set_contains s key then s
  else s ++ [{| cached_hash := URL_hash key; obj := key |}].

(** the body of the [for] loop of [_regex_url_parse], over the matches *)
Fixpoint scan (self : BaseParser) (re_urls : list entry)
         (matches : list (pystring * pystring * pystring))
  : result (list entry) :=
  match matches with
  | [] => Ok re_urls
  | url :: rest =>
      match candidate self url with
      | Raise e =>
          if isinstance_ValueError e then scan self re_urls rest
          else Raise e
      | Ok decoded_url => scan self (set_add re_urls decoded_url) rest
      end
  end.

(** [map(lambda u: u.normalize_url(), re_urls)]: every object of the set
    is normalized in place; its entry keeps the hash it was added under *)
Definition normalize_all (re_urls : list entry) : list entry :=
  map (fun e => {| cached_hash := cached_hash e;
                   obj := normalize_url (obj e) |}) re_urls.

Definition set_re_urls (self : BaseParser) (s : list entry) : BaseParser :=
  {| _base_url := _base_url self;
     _baseDomain := _baseDomain self;
     _rootDomain := _rootDomain self;
     _encoding := _encoding self;
     _re_urls := s |}.

(** [BaseParser._regex_url_parse]: the parser after the call *)
Definition _regex_url_parse (self : BaseParser) (doc_str : pystring)
  : result BaseParser :=
  re_urls <- scan self (_re_urls self) (URL_RE.findall doc_str) ;;
  Ok (set_re_urls self (normalize_all re_urls)).

End Methods.

(** ** Notions the properties are stated with *)

(** a [str] holds bytes *)
Definition is_bytes (s : seq) : Prop := Forall (fun b => b < 256) s.

(** ASCII text without NUL and without a percent sign *)
Definition plain_ascii (b : seq) : Prop :=
  Forall (fun c => 0 < c /\ c < 128 /\ c <> urllib.pct) b.

(** the bytes [_decode_url] hands to the text decoders: the unquoted
    bytes after the substitutions of [SAFE_CHARS] *)
Definition prepared (raw : seq) : seq :=
  fold_left (fun d '(sch, repl) => pystr.replace sch repl d)
            SAFE_CHARS (urllib.unquote raw).

Section Notions.
Context `{E : Externals}.


(** a set none of whose objects changed since it was added *)
Definition untouched (s : list entry) : Prop :=
  Forall (fun e => cached_hash e = URL_hash (obj e)) s
  /\ NoDup (map obj s).


(** a set whose objects are all normalized *)
Definition normalized (s : list entry) : Prop :=
  Forall (fun e => normalize_url (obj e) = obj e) s.

(** the first step of [_decode_url]: a [unicode] is encoded with the
    charset of the parser, a [str] is taken as it is *)
Definition wire (self : BaseParser) (url_string : pystring) : result seq :=
  match url_string with
  | Unicode u => unicode_encode (_encoding self) u
  | Str b => Ok b
  end.

(** the codec of [enc], under ['ignore'], decodes byte by byte, an ASCII
    byte to itself and no other byte to U+0000 *)
Definition bytewise (enc : string) : Prop :=
  exists table : N -> seq,
    (forall s, str_decode_ignore enc s = Ok (flat_map table s))
    /\ (forall b, b < 128 -> table b = [b])
    /\ (forall b, b <> 0 -> ~ In 0 (table b)).

(** the codec of [enc], under ['ignore'], decodes bytes that hold no
    NUL, and to a text without U+0000 *)
Definition nul_safe (enc : string) : Prop :=
  forall s, ~ In 0 s ->
            exists out, str_decode_ignore enc s = Ok out /\ ~ In 0 out.


(** the text [_decode_url] returns shows [%00] between what [A] and [B]
    decode to, on the UTF-8 path and, for a charset that decodes byte by
    byte, on the fallback path *)
Definition shows_marker (self : BaseParser)
           (url_string : pystring) (raw A B : seq) : Prop :=
  (forall out,
      pystr.decode_utf8 (prepared raw) = Some out ->
      exists oa ob,
        pystr.decode_utf8 A = Some oa /\ pystr.decode_utf8 B = Some ob
        /\ out = oa ++ lit "%00" ++ ob
        /\ _decode_url self url_string = Ok (oa ++ lit "%00" ++ ob))
  /\ (pystr.decode_utf8 (prepared raw) = None ->
      bytewise (_encoding self) ->
      exists da db,
        str_decode_ignore (_encoding self) A = Ok da
        /\ str_decode_ignore (_encoding self) B = Ok db
        /\ _decode_url self url_string = Ok (da ++ lit "%00" ++ db)).

(** the entry of a URL added as [u] and normalized since *)
Definition aged (u : URL) : entry :=
  {| cached_hash := URL_hash u; obj := normalize_url u |}.

End Notions.

(** ** The capability methods *)
Module Capabilities.

Inductive capability : Type :=
| get_forms | get_references | get_emails | get_comments
| get_scripts | get_meta_redir | get_meta_tags.

Definition method_name (c : capability) : string :=
  match c with
  | get_forms => "get_forms"
  | get_references => "get_references"
  | get_emails => "get_emails"
  | get_comments => "get_comments"
  | get_scripts => "get_scripts"
  | get_meta_redir => "get_meta_redir"
  | get_meta_tags => "get_meta_tags"
  end.

Section Dispatch.
(** what a call receives and what the returned list holds *)
Variables (arguments item : Type).

Definition method : Type := arguments -> result (list item).

(** the seven methods as [BaseParser] defines them *)
Definition BaseParser_method (c : capability) : method :=
  fun _ =>
    Raise (NotImplementedError
             ("You should create your own parser class and implement the "
                ++ method_name c ++ "() method.")).

(** [BaseParser._return_empty_list] *)
Definition _return_empty_list : method := fun _ => Ok [].

(** A class derived from [BaseParser], by the methods its body binds. *)
Record parser_class : Type := {
  class_dict : capability -> option method
}.

(** attribute lookup: the class first, then [BaseParser] *)
Definition invoke (cls : parser_class) (c : capability) : method :=
  match class_dict cls c with
  | Some m => m
  | None => BaseParser_method c
  end.
End Dispatch.

Arguments _return_empty_list {arguments item}.
Arguments class_dict {arguments item}.
Arguments invoke {arguments item}.

(** a parser class whose body binds none of the seven methods *)
Definition bare : parser_class unit nat := {| class_dict := fun _ => None |}.

(** a parser class that binds every method to [_return_empty_list] *)
Definition opted_out : parser_class unit nat :=
  {| class_dict := fun _ => Some _return_empty_list |}.

End Capabilities.

(** ** Codecs and a [URL] class to run the parser on

    Three codecs of the Python registry, and a plain stand-in for the
    [URL] class: enough to evaluate the methods on concrete documents. *)
Module codecs.

(** [u.encode('latin-1')] *)
Definition latin_1_encode (u : seq) : result seq :=
  if forallb (fun c => c <? 256) u then Ok u else Raise UnicodeEncodeError.

(** [s.decode('latin-1', 'ignore')]: every byte is its code point *)
Definition latin_1_decode_ignore (s : seq) : result seq := Ok s.

(** [u.encode('hex')]: [binascii.b2a_hex] of the text, which has to be
    ASCII *)
Definition hex_encode (u : seq) : result seq :=
  if forallb (fun c => c <? 128) u then
    Ok (flat_map
          (fun c =>
             let digit d := if d <? 10 then 48 + d else 87 + d in
             [digit (c / 16); digit (c mod 16)]) u)
  else Raise UnicodeEncodeError.

(** [s.decode('hex', 'ignore')]: the codec starts with
    [assert errors == 'strict'] *)
Definition hex_decode_ignore (s : seq) : result seq := Raise AssertionError.

(** [u.encode('utf-16-le')] *)
Definition utf_16_le_encode (u : seq) : result seq :=
  Ok (flat_map
          (fun c =>
             if c <? 0x10000 then [c mod 256; c / 256]
             else let v := c - 0x10000 in
                  let hi := 0xD800 + v / 1024 in
                  let lo := 0xDC00 + v mod 1024 in
                  [hi mod 256; hi / 256; lo mod 256; lo / 256]) u).

(** the text of UTF-16 little-endian bytes under ['ignore']: a trailing
    odd byte, a unit of the surrogate range without its partner and a
    surrogate cut off by the end of the data are skipped *)
Fixpoint utf_16_le_units (s : seq) : seq :=
  match s with
  | lo :: hi :: t =>
      let ch := hi * 256 + lo in
      if (ch <? 0xD800) || (0xDFFF <? ch) then
        ch :: utf_16_le_units t
      else
        match t with
        | lo2 :: hi2 :: t2 =>
            let ch2 := hi2 * 256 + lo2 in
            if (ch <=? 0xDBFF) && (0xDC00 <=? ch2) && (ch2 <=? 0xDFFF)
            then (0x10000 + (ch - 0xD800) * 1024 + (ch2 - 0xDC00))
                   :: utf_16_le_units t2
            else utf_16_le_units t
        | _ => []
        end
  | _ => []
  end.

(** [s.decode('utf-16-le', 'ignore')] *)
Definition utf_16_le_decode_ignore (s : seq) : result seq :=
  Ok (utf_16_le_units s).

End codecs.

Module Plain.

Definition lower (c : N) : N :=
  if (65 <=? c) && (c <=? 90) then c + 32 else c.

(** the text after the scheme, up to the first slash *)
Fixpoint host (s : seq) : seq :=
  match s with
  | [] => []
  | c :: s' => if c =? 47 then [] else c :: host s'
  end.

Definition text_of (s : seq) : string :=
  string_of_list_ascii (map ascii_of_N s).

Definition domain (u : seq) : string :=
  if URL_RE.starts_with (lit "https://") u then text_of (host (skipn 8 u))
  else text_of (host (skipn 7 u)).

Definition known (enc : string) : bool :=
  (String.eqb enc "iso-8859-1") || (String.eqb enc "utf-16-le")
  || (String.eqb enc "hex").

(** URLs as their text: a URL needs something after its scheme,
    normalizing lowers the ASCII letters. *)
Definition externals : Externals := {|
  URL := seq;
  URL_eq_dec := list_eq_dec N.eq_dec;
  URL_hash := fun u => fold_left (fun h c => (31 * h + c) mod 4294967296) u 7;
  URL_new := fun text _ =>
    if (URL_RE.starts_with (lit "http://") text && (7 <? N.of_nat (length text)))
       || (URL_RE.starts_with (lit "https://") text && (8 <? N.of_nat (length text)))
    then Some text else None;
  normalize_url := map lower;
  get_domain := domain;
  get_root_domain := domain;
  is_known_encoding := known;
  unicode_encode := fun enc u =>
    if String.eqb enc "utf-16-le" then codecs.utf_16_le_encode u
    else if String.eqb enc "hex" then codecs.hex_encode u
    else codecs.latin_1_encode u;
  str_decode_ignore := fun enc s =>
    if String.eqb enc "utf-16-le" then codecs.utf_16_le_decode_ignore s
    else if String.eqb enc "hex" then codecs.hex_decode_ignore s
    else codecs.latin_1_decode_ignore s
|}.

Definition response (charset : string) (url : seq) (redir : option seq)
  : @HTTPResponse externals :=
  @Build_HTTPResponse externals charset url redir.

Definition parser (charset : string) : @BaseParser externals :=
  @Build_BaseParser externals (lit "http://example.com/")
                    "example.com" "example.com" charset [].

End Plain.

(** the parser a call of [_regex_url_parse] leaves of [Plain.parser] *)
Definition after_call (charset : string) (doc_str : pystring)
  : @BaseParser Plain.externals :=
  match _regex_url_parse (Plain.parser charset) doc_str with
  | Ok p => p
  | Raise _ => Plain.parser charset
  end.


(** * Properties *)

(** ** Construction *)

(** C1: a response whose charset [is_known_encoding] rejects makes the
    constructor raise the unknown-encoding [ValueError], so the call yields
    no parser at all; a response whose charset it accepts gets a parser. *)
Theorem init_charset_gate `{E : Externals} (http_response : HTTPResponse) :
  (is_known_encoding (get_charset http_response) = false ->
   __init__ http_response
   = Raise (ValueError ("Unknown encoding: " ++ get_charset http_response))
   /\ forall p, __init__ http_response <> Ok p)
  /\ (is_known_encoding (get_charset http_response) = true ->
      exists p, __init__ http_response = Ok p
                /\ _encoding p = get_charset http_response
                /\ _re_urls p = []).
Proof.
  unfold __init__; split; intros Hk; rewrite Hk; simpl.
  - split; [reflexivity | discriminate].
  - eexists; split; [reflexivity | split; reflexivity].
Qed.

Lemma init_charset_gate_witness :
  (Plain.known "bogus-enc-9999" = false ->
   __init__ (Plain.response "bogus-enc-9999" (lit "http://a.example/") None)
   = Raise (ValueError "Unknown encoding: bogus-enc-9999")
   /\ forall p, __init__ (Plain.response "bogus-enc-9999"
                                         (lit "http://a.example/") None)
                <> Ok p)
  /\ (Plain.known "iso-8859-1" = true ->
      exists p, __init__ (Plain.response "iso-8859-1"
                                         (lit "http://a.example/") None) = Ok p
                /\ _encoding p = "iso-8859-1"%string
                /\ _re_urls p = []).
Proof.
  split.
  - exact (proj1 (init_charset_gate
                    (Plain.response "bogus-enc-9999" (lit "http://a.example/")
                                    None))).
  - exact (proj2 (init_charset_gate
                    (Plain.response "iso-8859-1" (lit "http://a.example/")
                                    None))).
Defined.

(** C2: the parser a response constructs has as base URL the redirect URL
    when there is one and the response URL otherwise, and its base domain
    and root domain are those of that URL; with a redirect the base domain
    is the redirect's. *)
Theorem init_base_url `{E : Externals} (http_response : HTTPResponse)
        (p : BaseParser) :
  __init__ http_response = Ok p ->
  _base_url p = effective_base_url http_response
  /\ (forall redir, get_redir_url http_response = Some redir ->
                    _base_url p = redir /\ _baseDomain p = get_domain redir)
  /\ (get_redir_url http_response = None ->
      _base_url p = get_url http_response)
  /\ _baseDomain p = get_domain (effective_base_url http_response)
  /\ _rootDomain p = get_root_domain (effective_base_url http_response).
Proof.
  unfold __init__, effective_base_url.
  destruct (is_known_encoding (get_charset http_response)); simpl;
    [| discriminate].
  intros H; injection H as <-; simpl.
  destruct (get_redir_url http_response) as [r |]; repeat split;
    try reflexivity; intros; congruence.
Qed.

Lemma init_base_url_witness :
  exists p,
    __init__ (Plain.response "iso-8859-1" (lit "http://a.example/x")
                             (Some (lit "http://b.example/y"))) = Ok p
    /\ _base_url p = lit "http://b.example/y"
    /\ _baseDomain p = "b.example"%string.
Proof.
  eexists; split; [reflexivity |].
  pose proof (init_base_url
                (Plain.response "iso-8859-1" (lit "http://a.example/x")
                                (Some (lit "http://b.example/y")))
                _ eq_refl) as (_ & H & _).
  exact (H _ eq_refl).
Defined.

(** ** Capabilities *)
Module CapabilityFacts.
Import Capabilities.

(** C7, as stated, fails: a capability the class does not bind is the
    one of [BaseParser], and calling it raises. *)
Lemma unbound_capability_raises :
  ~ (forall (cls : parser_class unit nat) (c : capability) (a : unit),
        class_dict cls c = None -> invoke cls c a = Ok []).
Proof.
  intros H. specialize (H bare get_forms tt eq_refl). discriminate H.
Qed.

(** C7, amended: a capability the class does not bind raises
    [NotImplementedError]; a capability the class binds to
    [_return_empty_list] returns the empty list for any arguments. *)
Theorem capability_defaults (arguments item : Type)
        (cls : parser_class arguments item) (c : capability)
        (a : arguments) :
  (class_dict cls c = None ->
   exists msg, invoke cls c a = Raise (NotImplementedError msg))
  /\ (class_dict cls c = Some _return_empty_list ->
      invoke cls c a = Ok []).
Proof.
  unfold invoke; split; intros ->.
  - eexists; reflexivity.
  - reflexivity.
Qed.

Lemma capability_defaults_witness :
  (exists msg, invoke bare get_emails tt = Raise (NotImplementedError msg))
  /\ invoke opted_out get_emails tt = Ok [].
Proof.
  split.
  - exact (proj1 (capability_defaults unit nat bare get_emails tt) eq_refl).
  - exact (proj2 (capability_defaults unit nat opted_out get_emails tt)
                 eq_refl).
Defined.

End CapabilityFacts.

(** ** The pattern *)
Module URL_RE_Facts.
Import URL_RE.

Lemma occurs_cons p c s :
  occurs p (c :: s) = false ->
  starts_with p (c :: s) = false /\ occurs p s = false.
Proof.
  cbn [occurs]. intros H. apply orb_false_iff in H. exact H.
Qed.

Lemma run_length s : (length (snd (run s)) <= length s)%nat.
Proof.
  induction s as [| c s IH]; simpl; [lia |].
  destruct (excluded c); simpl; [lia |].
  destruct (run s) as [r rest]; simpl in *; lia.
Qed.

Lemma starts_with_skipn p s :
  starts_with p s = true -> length s = (length p + length (skipn (length p) s))%nat.
Proof.
  revert s; induction p as [| a p IH]; intros s; [reflexivity |].
  destruct s as [| c s]; simpl; [discriminate |].
  intros H. apply andb_true_iff in H as (_ & H). rewrite (IH _ H) at 1.
  reflexivity.
Qed.

Lemma match_at_rest s groups rest :
  match_at s = Some (groups, rest) ->
  (length rest < length s)%nat
  /\ (starts_with (lit "http://") (fst (fst groups)) = true
      \/ starts_with (lit "https://") (fst (fst groups)) = true)
  /\ (snd (fst groups) = lit "http" \/ snd (fst groups) = lit "https").
Proof.
  unfold match_at.
  destruct (starts_with (lit "http://") s) eqn:H1.
  - pose proof (run_length (skipn 7 s)) as Hl.
    destruct (run (skipn 7 s)) as [r rest'] eqn:Hr. cbn [snd] in Hl.
    intros H; injection H as <- <-.
    split; [| split; [left; reflexivity | left; reflexivity]].
    apply starts_with_skipn in H1. change (length (lit "http://")) with 7%nat in H1.
    lia.
  - destruct (starts_with (lit "https://") s) eqn:H2; [| discriminate].
    pose proof (run_length (skipn 8 s)) as Hl.
    destruct (run (skipn 8 s)) as [r rest'] eqn:Hr. cbn [snd] in Hl.
    intros H; injection H as <- <-.
    split; [| split; [right; reflexivity | right; reflexivity]].
    apply starts_with_skipn in H2. change (length (lit "https://")) with 8%nat in H2.
    lia.
Qed.

(** more fuel than the text is long changes nothing *)
Lemma findall_from_enough fuel s :
  (length s <= fuel)%nat -> findall_from fuel s = findall_seq s.
Proof.
  unfold findall_seq.
  remember (length s) as n eqn:Hn.
  revert s Hn fuel.
  induction n as [n IH] using (well_founded_induction Wf_nat.lt_wf).
  intros s Hn fuel Hf.
  destruct s as [| c s]; simpl in Hn; subst n.
  - destruct fuel; reflexivity.
  - destruct fuel as [| fuel]; [simpl in Hf; lia |].
    cbn [findall_from].
    destruct (match_at (c :: s)) as [[groups rest] |] eqn:Hm.
    + apply match_at_rest in Hm as (Hlt & _). simpl in Hlt.
      f_equal.
      rewrite (IH (length rest) ltac:(simpl; lia) rest eq_refl fuel
                  ltac:(simpl in Hf; lia)).
      rewrite (IH (length rest) ltac:(simpl; lia) rest eq_refl (length s)
                  ltac:(lia)).
      reflexivity.
    + rewrite (IH (length s) ltac:(simpl; lia) s eq_refl fuel
                  ltac:(simpl in Hf; lia)).
      reflexivity.
Qed.

(** the scan, as an equation on the text *)
Lemma findall_seq_eq s :
  findall_seq s
  = match s with
    | [] => []
    | _ :: s' =>
        match match_at s with
        | Some (groups, rest) => groups :: findall_seq rest
        | None => findall_seq s'
        end
    end.
Proof.
  destruct s as [| c s]; [reflexivity |].
  unfold findall_seq at 1. cbn [length findall_from].
  destruct (match_at (c :: s)) as [[groups rest] |] eqn:Hm.
  - apply match_at_rest in Hm as (Hlt & _). simpl in Hlt.
    rewrite findall_from_enough by lia. reflexivity.
  - reflexivity.
Qed.

Lemma findall_from_scheme fuel s g :
  In g (findall_from fuel s) ->
  (starts_with (lit "http://") (fst (fst g)) = true
   \/ starts_with (lit "https://") (fst (fst g)) = true)
  /\ (snd (fst g) = lit "http" \/ snd (fst g) = lit "https").
Proof.
  revert s; induction fuel as [| fuel IH]; intros s; simpl; [tauto |].
  destruct s as [| c s]; [simpl; tauto |].
  destruct (match_at (c :: s)) as [[groups rest] |] eqn:Hm.
  - intros [<- | Hin]; [| exact (IH _ Hin)].
    apply match_at_rest in Hm. tauto.
  - apply IH.
Qed.

Lemma findall_from_none fuel s :
  occurs (lit "http://") s = false ->
  occurs (lit "https://") s = false ->
  findall_from fuel s = [].
Proof.
  revert s; induction fuel as [| fuel IH]; intros s H1 H2; [reflexivity |].
  destruct s as [| c s]; [reflexivity |].
  apply occurs_cons in H1 as (H1 & H1').
  apply occurs_cons in H2 as (H2 & H2').
  cbn [findall_from]. unfold match_at. rewrite H1, H2.
  apply IH; assumption.
Qed.

Lemma findall_none doc_str s :
  doc_str = Str s \/ doc_str = Unicode s ->
  occurs (lit "http://") s = false ->
  occurs (lit "https://") s = false ->
  findall doc_str = [].
Proof.
  intros [-> | ->] H1 H2; unfold findall, findall_seq;
    rewrite findall_from_none by assumption; reflexivity.
Qed.

End URL_RE_Facts.

(** ** The extraction loop *)
Section ScanFacts.
Context `{E : Externals}.

(** an exception of [_decode_url] is the one the codec raised, when
    encoding the text or when reading bytes that are not UTF-8 *)
Lemma _decode_url_raises self url_string e :
  _decode_url self url_string = Raise e ->
  (exists u, url_string = Unicode u
             /\ unicode_encode (_encoding self) u = Raise e)
  \/ (exists raw, wire self url_string = Ok raw
                  /\ pystr.decode_utf8 (prepared raw) = None
                  /\ str_decode_ignore (_encoding self) (prepared raw)
                     = Raise e).
Proof.
  assert (forall b,
             (dec <- Ok b ;;
              try_except
                (pystr.decode_UTF8
                   (fold_left (fun d '(sch, repl) => pystr.replace sch repl d)
                              SAFE_CHARS (urllib.unquote dec)))
                isinstance_UnicodeDecodeError
                (str_decode_ignore
                   (_encoding self)
                   (fold_left
                      (fun d '(sch, repl) => pystr.replace sch repl d)
                      SAFE_CHARS (urllib.unquote dec))))
             = Raise e ->
             pystr.decode_utf8 (prepared b) = None
             /\ str_decode_ignore (_encoding self) (prepared b) = Raise e)
    as Hb.
  { intros b. unfold bind, prepared, pystr.decode_UTF8, try_except.
    destruct (pystr.decode_utf8 _); [discriminate |].
    cbn [isinstance_UnicodeDecodeError]. auto. }
  unfold _decode_url, wire.
  destruct url_string as [b | u].
  - intros H. right. exists b. split; [reflexivity | apply Hb, H].
  - destruct (unicode_encode (_encoding self) u) as [b | e'] eqn:Hu.
    + intros H. right. exists b. split; [reflexivity | apply Hb, H].
    + cbn [bind]. intros H; injection H as <-. left. eauto.
Qed.


Lemma scan_cons_ok self s url rest u :
  candidate self url = Ok u ->
  scan self s (url :: rest) = scan self (set_add s u) rest.
Proof.
  intros H; cbn [scan]; rewrite H; reflexivity.
Qed.

Lemma scan_cons_raise self s url rest e :
  candidate self url = Raise e ->
  isinstance_ValueError e = true ->
  scan self s (url :: rest) = scan self s rest.
Proof.
  intros H Hv. cbn [scan]; rewrite H, Hv; reflexivity.
Qed.

Lemma scan_cons_abort self s url rest e :
  candidate self url = Raise e ->
  isinstance_ValueError e = false ->
  scan self s (url :: rest) = Raise e.
Proof.
  intros H Hv. cbn [scan]; rewrite H, Hv; reflexivity.
Qed.

(** the cases of one step of the loop, for a proof by induction *)
Ltac scan_step self url Hc :=
  let u := fresh "u" in
  let e := fresh "e" in
  let Hv := fresh "Hv" in
  destruct (candidate self url) as [u | e] eqn:Hc;
  [ rewrite ?(scan_cons_ok _ _ _ _ _ Hc)
  | destruct (isinstance_ValueError e) eqn:Hv;
    [ rewrite ?(scan_cons_raise _ _ _ _ _ Hc Hv)
    | rewrite ?(scan_cons_abort _ _ _ _ _ Hc Hv) ] ].

(** the loop returns exactly when every exception of a match is a
    [ValueError] *)
Lemma scan_returns_iff self s matches :
  (exists s', scan self s matches = Ok s')
  <-> (forall url e, In url matches -> candidate self url = Raise e ->
                     isinstance_ValueError e = true).
Proof.
  revert s; induction matches as [| url rest IH]; intros s.
  - split; [intros _ ? ? [] | intros _; eexists; reflexivity].
  - scan_step self url Hc.
    + rewrite IH. split.
      * intros H url' e' [<- | Hin] Hc'; [congruence | eauto].
      * intros H url' e' Hin. apply H. right; assumption.
    + rewrite IH. split.
      * intros H url' e' [<- | Hin] Hc'; [congruence | eauto].
      * intros H url' e' Hin. apply H. right; assumption.
    + split.
      * intros (s' & H). discriminate H.
      * intros H. specialize (H url e (or_introl eq_refl) Hc). congruence.
Qed.



Lemma set_add_grows s u :
  set_add s u = s
  \/ set_add s u = s ++ [{| cached_hash := URL_hash u; obj := u |}].
Proof. unfold set_add; destruct (set_contains s u); auto. Qed.

(** the loop only appends, at most one entry for each match *)
Lemma scan_appends self s matches s' :
  scan self s matches = Ok s' ->
  exists added, s' = s ++ added /\ (length added <= length matches)%nat.
Proof.
  revert s; induction matches as [| url rest IH]; intros s.
  - intros H; injection H as <-. exists []. rewrite app_nil_r. auto.
  - destruct (candidate self url) as [u | e] eqn:Hc.
    + rewrite (scan_cons_ok _ _ _ _ _ Hc). intros H.
      apply IH in H as (added & -> & Hl).
      destruct (set_add_grows s u) as [-> | ->].
      * exists added; split; [reflexivity | simpl; lia].
      * eexists; rewrite <- app_assoc; split; [reflexivity |].
        simpl; lia.
    + destruct (isinstance_ValueError e) eqn:Hv.
      * rewrite (scan_cons_raise _ _ _ _ _ Hc Hv). intros H.
        apply IH in H as (added & -> & Hl).
        exists added; split; [reflexivity | simpl; lia].
      * rewrite (scan_cons_abort _ _ _ _ _ Hc Hv). discriminate.
Qed.


Lemma _regex_url_parse_inv self doc_str p' :
  _regex_url_parse self doc_str = Ok p' ->
  exists s', scan self (_re_urls self) (URL_RE.findall doc_str) = Ok s'
             /\ p' = set_re_urls self (normalize_all s').
Proof.
  unfold _regex_url_parse.
  destruct (scan self (_re_urls self) (URL_RE.findall doc_str)) as [s' |];
    simpl; [| discriminate].
  intros H; injection H as <-. eauto.
Qed.

End ScanFacts.




(** C8: on a parser whose set is empty, a text in which neither [http://]
    nor [https://] occurs leaves the set empty; and every match of the
    pattern, in whatever text, begins with [http://] or [https://], its
    scheme group being [http] or [https]. *)
Theorem no_scheme_no_urls `{E : Externals} (self : BaseParser)
        (doc_str : pystring) (s : seq) :
  (doc_str = Str s \/ doc_str = Unicode s) ->
  (URL_RE.occurs (lit "http://") s = false ->
   URL_RE.occurs (lit "https://") s = false ->
   _re_urls self = [] ->
   exists p', _regex_url_parse self doc_str = Ok p' /\ _re_urls p' = [])
  /\ (forall g, In g (URL_RE.findall_seq s) ->
                (URL_RE.starts_with (lit "http://") (fst (fst g)) = true
                 \/ URL_RE.starts_with (lit "https://") (fst (fst g)) = true)
                /\ (snd (fst g) = lit "http" \/ snd (fst g) = lit "https")).
Proof.
  intros Hdoc; split.
  - intros H1 H2 Hempty.
    unfold _regex_url_parse.
    rewrite (URL_RE_Facts.findall_none doc_str s Hdoc H1 H2), Hempty.
    simpl. eexists; split; reflexivity.
  - intros g. apply URL_RE_Facts.findall_from_scheme.
Qed.

Lemma no_scheme_no_urls_witness :
  exists p',
    _regex_url_parse (Plain.parser "iso-8859-1")
                     (Str (lit "see ftp://files.example/ or http:/x"))
    = Ok p'
    /\ _re_urls p' = [].
Proof.
  exact (proj1 (no_scheme_no_urls
                  (Plain.parser "iso-8859-1")
                  (Str (lit "see ftp://files.example/ or http:/x"))
                  (lit "see ftp://files.example/ or http:/x")
                  (or_introl eq_refl))
               eq_refl eq_refl eq_refl).
Defined.

(** ** The set of extracted URLs *)
Section SetFacts.
Context `{E : Externals}.

Lemma set_contains_untouched s u :
  Forall (fun e => cached_hash e = URL_hash (obj e)) s ->
  set_contains s u = true <-> In u (map obj s).
Proof.
  intros Hh. unfold set_contains. rewrite existsb_exists, in_map_iff.
  split.
  - intros (e & Hin & Hb). exists e. split; [| exact Hin].
    apply andb_true_iff in Hb as (_ & Hb).
    destruct (URL_eq_dec (obj e) u); [assumption | discriminate].
  - intros (e & <- & Hin). exists e. split; [exact Hin |].
    rewrite Forall_forall in Hh. rewrite (Hh e Hin), N.eqb_refl.
    destruct (URL_eq_dec (obj e) (obj e)); [reflexivity | contradiction].
Qed.

Lemma set_add_untouched s u :
  untouched s -> untouched (set_add s u) /\ In u (map obj (set_add s u)).
Proof.
  intros (Hh & Hnd). unfold set_add.
  destruct (set_contains s u) eqn:Hc.
  - split; [split; assumption |].
    apply set_contains_untouched; assumption.
  - assert (~ In u (map obj s)) as Hnin.
    { intros Hin. apply set_contains_untouched in Hin; [| assumption].
      congruence. }
    split; [split |].
    + apply Forall_app; split; [assumption |].
      constructor; [reflexivity | constructor].
    + rewrite map_app. simpl.
      apply NoDup_app; repeat split;
        [assumption | repeat constructor; simpl; tauto |].
      intros x Hx [<- | []]. contradiction.
    + rewrite map_app, in_app_iff. right; left; reflexivity.
Qed.

Lemma scan_untouched self s matches s' :
  untouched s ->
  scan self s matches = Ok s' ->
  untouched s'
  /\ forall url u, In url matches -> candidate self url = Ok u ->
                   In u (map obj s').
Proof.
  revert s; induction matches as [| url rest IH]; intros s Hs.
  - intros H; injection H as <-. split; [assumption | intros ? ? []].
  - destruct (candidate self url) as [u | e] eqn:Hc.
    + rewrite (scan_cons_ok _ _ _ _ _ Hc). intros H.
      destruct (set_add_untouched s u Hs) as (Hs1 & Hin).
      pose proof (scan_appends _ _ _ _ H) as (added & Heq & _).
      destruct (IH _ Hs1 H) as (Hs' & Hall).
      split; [assumption |].
      intros url' u' [<- | Hin'] Hc'.
      * assert (u' = u) as -> by congruence.
        rewrite Heq, map_app, in_app_iff. left; assumption.
      * exact (Hall _ _ Hin' Hc').
    + destruct (isinstance_ValueError e) eqn:Hv;
        [| rewrite (scan_cons_abort _ _ _ _ _ Hc Hv); discriminate].
      rewrite (scan_cons_raise _ _ _ _ _ Hc Hv). intros H.
      destruct (IH _ Hs H) as (Hs' & Hall).
      split; [assumption |].
      intros url' u' [<- | Hin'] Hc'; [congruence |].
      exact (Hall _ _ Hin' Hc').
Qed.





Lemma normalize_all_normalized s :
  normalized s -> normalize_all s = s.
Proof.
  induction 1 as [| e s He _ IH]; simpl; [reflexivity |].
  rewrite IH, He. destruct e; reflexivity.
Qed.


End SetFacts.






(** ** Percent-unquoting, position by position *)
Module urllib_Facts.
Import urllib.

Lemma split_nonempty s : exists h t, split s = h :: t.
Proof.
  destruct s as [| c s]; simpl; [eauto |].
  destruct (c =? pct); [eauto |].
  destruct (split s); eauto.
Qed.

Lemma split_cons_other c s h t :
  c <> pct -> split s = h :: t -> split (c :: s) = (c :: h) :: t.
Proof.
  intros Hc Hs. simpl. rewrite (proj2 (N.eqb_neq _ _) Hc), Hs. reflexivity.
Qed.

Lemma split_single s h : split s = [h] -> h = s.
Proof.
  revert h; induction s as [| c s IH]; intros h; simpl.
  - intros H; injection H as <-; reflexivity.
  - destruct (c =? pct).
    + destruct (split_nonempty s) as (h' & t' & ->). discriminate.
    + destruct (split s) as [| h' t'] eqn:Hs.
      * intros H; injection H as <-.
        destruct (split_nonempty s) as (? & ? & ?); congruence.
      * intros H; injection H as <- ->. f_equal. apply IH; reflexivity.
Qed.

Lemma unquote_joined s : unquote s = joined s.
Proof.
  unfold unquote, joined.
  destruct (split s) as [| b0 [| i items]] eqn:Hs; try reflexivity.
  simpl. rewrite app_nil_r. symmetry. apply split_single, Hs.
Qed.

Lemma hexval_pct : hexval pct = None.
Proof. reflexivity. Qed.

Lemma unquote_nil : unquote [] = [].
Proof. reflexivity. Qed.

Lemma unquote_cons_other c s :
  c <> pct -> unquote (c :: s) = c :: unquote s.
Proof.
  intros Hc. rewrite !unquote_joined. unfold joined.
  destruct (split_nonempty s) as (h & t & Hs).
  rewrite (split_cons_other _ _ _ _ Hc Hs), Hs. reflexivity.
Qed.

Lemma hexval_not_pct a x : hexval a = Some x -> a <> pct.
Proof. intros H ->. rewrite hexval_pct in H. discriminate. Qed.

Lemma split_head t a h tl :
  split t = (a :: h) :: tl ->
  exists t', t = a :: t' /\ a <> pct /\ split t' = h :: tl.
Proof.
  destruct t as [| c t]; simpl; [discriminate |].
  destruct (c =? pct) eqn:Hc; [discriminate |].
  apply N.eqb_neq in Hc.
  destruct (split t) as [| h0 t0] eqn:Hs.
  - destruct (split_nonempty t) as (? & ? & ?); congruence.
  - intros H; injection H as -> -> ->. eauto.
Qed.

(** what [unquote] does at a percent sign *)
Lemma unquote_cons_pct t :
  unquote (pct :: t)
  = match escape_at t with
    | Some (c, r) => c :: unquote r
    | None => pct :: unquote t
    end.
Proof.
  rewrite !unquote_joined. unfold joined at 1.
  change (split (pct :: t)) with ([] :: split t).
  destruct (split_nonempty t) as (h & tl & Hs). rewrite Hs.
  cbn [app map concat].
  assert (joined t = h ++ concat (map unquote_item tl)) as Hj
      by (unfold joined; rewrite Hs; reflexivity).
  destruct h as [| a [| b h]].
  - (* the item is empty: the text ends or another percent sign follows *)
    assert (escape_at t = None) as ->.
    { destruct t as [| c t]; [reflexivity |].
      simpl in Hs. destruct (c =? pct) eqn:Hc.
      - apply N.eqb_eq in Hc as ->. destruct t; reflexivity.
      - destruct (split t); discriminate. }
    rewrite Hj. reflexivity.
  - apply split_head in Hs as (t' & -> & Ha & Hs').
    assert (escape_at (a :: t') = None) as ->.
    { destruct t' as [| c t']; [reflexivity |].
      simpl in Hs'. destruct (c =? pct) eqn:Hc.
      - apply N.eqb_eq in Hc as ->. simpl. destruct (hexval a); reflexivity.
      - destruct (split t'); discriminate. }
    rewrite Hj. reflexivity.
  - apply split_head in Hs as (t' & -> & Ha & Hs').
    apply split_head in Hs' as (r & -> & Hb & Hs'').
    cbn [escape_at unquote_item].
    destruct (hexval a) as [x |]; [destruct (hexval b) as [y |] |].
    + rewrite unquote_joined. unfold joined. rewrite Hs''. reflexivity.
    + rewrite Hj. reflexivity.
    + rewrite Hj. reflexivity.
Qed.

End urllib_Facts.

Module unquote_Facts.
Import urllib urllib_Facts.

Lemma escape_at_app_some pre tail c r :
  escape_at pre = Some (c, r) ->
  escape_at (pre ++ tail) = Some (c, r ++ tail)
  /\ (length r < length pre)%nat.
Proof.
  destruct pre as [| a [| b pre]]; simpl; try discriminate.
  destruct (hexval a); [| discriminate].
  destruct (hexval b); [| discriminate].
  intros H; injection H as <- <-. split; [reflexivity | lia].
Qed.

Lemma escape_at_app_none pre tail :
  stops tail -> escape_at pre = None -> escape_at (pre ++ tail) = None.
Proof.
  intros Ht.
  destruct pre as [| a [| b pre]]; simpl.
  - intros _. destruct tail as [| c [| d tail]]; simpl in *;
      try reflexivity. rewrite Ht. reflexivity.
  - intros _. destruct tail as [| c tail]; simpl in *; [reflexivity |].
    rewrite Ht. destruct (hexval a); reflexivity.
  - destruct (hexval a); [| reflexivity].
    destruct (hexval b); [discriminate | reflexivity].
Qed.

(** unquoting is done piece by piece, wherever the second piece does not
    begin with a hexadecimal digit *)
Lemma unquote_app_stop pre tail :
  stops tail -> unquote (pre ++ tail) = unquote pre ++ unquote tail.
Proof.
  intros Ht.
  remember (length pre) as n eqn:Hn. revert pre Hn.
  induction n as [n IH] using (well_founded_induction Wf_nat.lt_wf).
  intros [| c pre] Hn; [reflexivity |]. simpl in Hn. subst n.
  rewrite <- app_comm_cons.
  destruct (N.eq_dec c pct) as [-> | Hc].
  - rewrite !unquote_cons_pct.
    destruct (escape_at pre) as [[x r] |] eqn:He.
    + destruct (escape_at_app_some _ tail _ _ He) as (-> & Hl).
      rewrite (IH (length r) ltac:(lia) r eq_refl). reflexivity.
    + rewrite (escape_at_app_none _ _ Ht He).
      rewrite (IH (length pre) ltac:(lia) pre eq_refl). reflexivity.
  - rewrite !(unquote_cons_other _ _ Hc).
    rewrite (IH (length pre) ltac:(lia) pre eq_refl). reflexivity.
Qed.

(** a literal NUL byte stays where it is *)
Lemma unquote_nul pre post :
  unquote (pre ++ 0 :: post) = unquote pre ++ 0 :: unquote post.
Proof.
  rewrite unquote_app_stop by reflexivity.
  rewrite (unquote_cons_other 0 post) by discriminate. reflexivity.
Qed.

(** the escape [%00] becomes a NUL byte where it stands *)
Lemma unquote_pct00 pre post :
  unquote (pre ++ lit "%00" ++ post) = unquote pre ++ 0 :: unquote post.
Proof.
  rewrite unquote_app_stop by reflexivity.
  change (lit "%00" ++ post) with (pct :: 48 :: 48 :: post).
  rewrite unquote_cons_pct. reflexivity.
Qed.

Lemma hexval_lt a x : hexval a = Some x -> x < 16.
Proof.
  unfold hexval.
  destruct ((48 <=? a) && (a <=? 57)) eqn:H1.
  { apply andb_true_iff in H1 as (H & H'). apply N.leb_le in H, H'.
    intros E; injection E as <-. lia. }
  destruct ((65 <=? a) && (a <=? 70)) eqn:H2.
  { apply andb_true_iff in H2 as (H & H'). apply N.leb_le in H, H'.
    intros E; injection E as <-. lia. }
  destruct ((97 <=? a) && (a <=? 102)) eqn:H3; [| discriminate].
  apply andb_true_iff in H3 as (H & H'). apply N.leb_le in H, H'.
  intros E; injection E as <-. lia.
Qed.

Lemma unquote_is_bytes s : is_bytes s -> is_bytes (unquote s).
Proof.
  remember (length s) as n eqn:Hn. revert s Hn.
  induction n as [n IH] using (well_founded_induction Wf_nat.lt_wf).
  intros [| c s] Hn Hb; [constructor |]. simpl in Hn. subst n.
  inversion Hb as [| ? ? Hc Hs]; subst.
  destruct (N.eq_dec c pct) as [-> | Hne].
  - rewrite unquote_cons_pct.
    destruct (escape_at s) as [[x r] |] eqn:He.
    + destruct s as [| a [| b s]]; cbn [escape_at] in He; try discriminate.
      destruct (hexval a) as [xa |] eqn:Ha; [| discriminate].
      destruct (hexval b) as [xb |] eqn:Hb'; [| discriminate].
      injection He as <- <-.
      apply hexval_lt in Ha, Hb'.
      inversion Hs as [| ? ? _ Hs']; subst.
      inversion Hs' as [| ? ? _ Hs'']; subst.
      constructor; [change (16 * xa + xb < 256); lia |].
      apply (IH (length s)); [simpl; lia | reflexivity | assumption].
    + constructor; [assumption |].
      apply (IH (length s)); [simpl; lia | reflexivity | assumption].
  - rewrite (unquote_cons_other _ _ Hne).
    constructor; [assumption |].
    apply (IH (length s)); [simpl; lia | reflexivity | assumption].
Qed.

End unquote_Facts.

Module replace_Facts.

Lemma prepared_eq raw :
  prepared raw = pystr.replace 0 (lit "%00") (urllib.unquote raw).
Proof. reflexivity. Qed.

Lemma replace_app sch repl a b :
  pystr.replace sch repl (a ++ b)
  = pystr.replace sch repl a ++ pystr.replace sch repl b.
Proof. unfold pystr.replace. apply flat_map_app. Qed.

Lemma replace_no_nul s : ~ In 0 (pystr.replace 0 (lit "%00") s).
Proof.
  unfold pystr.replace. rewrite in_flat_map. intros (c & _ & Hin).
  destruct (c =? 0) eqn:Hc.
  - simpl in Hin. intuition discriminate.
  - apply N.eqb_neq in Hc. simpl in Hin. intuition congruence.
Qed.

Lemma replace_is_bytes s :
  is_bytes s -> is_bytes (pystr.replace 0 (lit "%00") s).
Proof.
  unfold is_bytes, pystr.replace. intros Hs.
  apply Forall_flat_map. apply Forall_forall. intros c Hc.
  rewrite Forall_forall in Hs. specialize (Hs c Hc).
  destruct (c =? 0).
  - repeat constructor.
  - constructor; [assumption | constructor].
Qed.

Lemma prepared_no_nul raw : ~ In 0 (prepared raw).
Proof. rewrite prepared_eq. apply replace_no_nul. Qed.

Lemma prepared_is_bytes raw : is_bytes raw -> is_bytes (prepared raw).
Proof.
  intros H. rewrite prepared_eq.
  apply replace_is_bytes, unquote_Facts.unquote_is_bytes, H.
Qed.

(** a literal NUL byte comes out as [%00] where it stood *)
Lemma prepared_nul pre post :
  prepared (pre ++ 0 :: post) = prepared pre ++ lit "%00" ++ prepared post.
Proof.
  rewrite !prepared_eq, unquote_Facts.unquote_nul, replace_app.
  reflexivity.
Qed.

(** and so does the escape [%00] *)
Lemma prepared_pct00 pre post :
  prepared (pre ++ lit "%00" ++ post)
  = prepared pre ++ lit "%00" ++ prepared post.
Proof.
  rewrite !prepared_eq, unquote_Facts.unquote_pct00, replace_app.
  reflexivity.
Qed.

End replace_Facts.

(** ** The UTF-8 decoder *)
Module utf8_Facts.
Import pystr.

(** a fact about bytes that holds for each of the 256 holds for all *)
Lemma forall_bytes (P : N -> bool) :
  forallb P all_bytes = true -> forall b, b < 256 -> P b = true.
Proof.
  intros H b Hb. rewrite forallb_forall in H. apply H.
  unfold all_bytes. apply in_map_iff. exists (N.to_nat b).
  split; [apply N2Nat.id |]. apply in_seq. lia.
Qed.

Lemma ascii_not_cont x : x < 128 -> is_cont x = false.
Proof.
  intros Hx.
  pose proof (forall_bytes
                (fun b => implb (b <? 128) (negb (is_cont b)))
                eq_refl x ltac:(lia)) as H.
  cbv beta in H. rewrite (proj2 (N.ltb_lt _ _) Hx) in H. simpl in H.
  destruct (is_cont x); [discriminate | reflexivity].
Qed.

Lemma option_map_cons_inv (x : N) o out :
  option_map (cons x) o = Some out ->
  exists o', o = Some o' /\ out = x :: o'.
Proof.
  destruct o as [o' |]; simpl; [| discriminate].
  intros H; injection H as <-. eauto.
Qed.

Ltac by_length b :=
  unfold utf8_code_length;
  destruct (b <? 0x80) eqn:?;
  [| destruct (b <? 0xC2) eqn:?;
     [| destruct (b <? 0xE0) eqn:?;
        [| destruct (b <? 0xF0) eqn:?;
           [| destruct (b <? 0xF5) eqn:?]]]];
  cbv beta iota.

Ltac cut_short Hnc :=
  repeat match goal with
         | |- context [match ?l with [] => _ | _ :: _ => _ end] =>
             is_var l; destruct l
         end;
  rewrite ?Hnc;
  repeat match goal with
         | |- context [is_cont ?b] => destruct (is_cont b)
         end;
  cbn [negb orb andb]; discriminate.

(** an ASCII byte is never inside a sequence: valid text stays valid
    text on both sides of it *)
Lemma decode_utf8_ascii_cut a x c out :
  x < 128 ->
  decode_utf8 (a ++ x :: c) = Some out ->
  exists oa oc,
    decode_utf8 a = Some oa /\ decode_utf8 c = Some oc
    /\ out = oa ++ x :: oc.
Proof.
  intros Hx. pose proof (ascii_not_cont x Hx) as Hnc.
  remember (length a) as n eqn:Hn. revert a Hn out.
  induction n as [n IH] using (well_founded_induction Wf_nat.lt_wf).
  intros [| b0 t0] Hn out; subst n.
  - cbn [app decode_utf8]. unfold utf8_code_length.
    rewrite (proj2 (N.ltb_lt x 128) Hx). cbv beta iota.
    intros H. apply option_map_cons_inv in H as (oc & -> & ->).
    exists [], oc. auto.
  - rewrite <- app_comm_cons. cbn [decode_utf8]. by_length b0.
    + intros H. apply option_map_cons_inv in H as (o' & H & ->).
      apply (IH (length t0)) in H as (oa & oc & -> & -> & ->);
        [| simpl; lia | reflexivity].
      exists (b0 :: oa), oc. auto.
    + discriminate.
    + destruct t0 as [| b1 t1]; cbn [app].
      * cut_short Hnc.
      * destruct (is_cont b1); cbn [negb]; [| discriminate].
        intros H. apply option_map_cons_inv in H as (o' & H & ->).
        apply (IH (length t1)) in H as (oa & oc & -> & -> & ->);
          [| simpl; lia | reflexivity].
        do 2 eexists; split; [reflexivity | split; reflexivity].
    + destruct t0 as [| b1 [| b2 t2]]; cbn [app].
      * cut_short Hnc.
      * cut_short Hnc.
      * destruct (negb (is_cont b1) || negb (is_cont b2)
                  || (b0 =? 224) && (b1 <? 160)); [discriminate |].
        intros H. apply option_map_cons_inv in H as (o' & H & ->).
        apply (IH (length t2)) in H as (oa & oc & -> & -> & ->);
          [| simpl; lia | reflexivity].
        do 2 eexists; split; [reflexivity | split; reflexivity].
    + destruct t0 as [| b1 [| b2 [| b3 t3]]]; cbn [app].
      * cut_short Hnc.
      * cut_short Hnc.
      * cut_short Hnc.
      * destruct (negb (is_cont b1) || negb (is_cont b2)
                  || negb (is_cont b3)
                  || (b0 =? 240) && (b1 <? 144)
                  || (b0 =? 244) && (143 <? b1)); [discriminate |].
        intros H. apply option_map_cons_inv in H as (o' & H & ->).
        apply (IH (length t3)) in H as (oa & oc & -> & -> & ->);
          [| simpl; lia | reflexivity].
        do 2 eexists; split; [reflexivity | split; reflexivity].
    + discriminate.
Qed.

Lemma shiftl_sum_nonzero a n b :
  a <> 0 \/ b <> 0 -> N.shiftl a n + b <> 0.
Proof.
  intros H. rewrite N.shiftl_mul_pow2.
  assert (2 ^ n <> 0) as Hp by (apply N.pow_nonzero; discriminate).
  destruct H as [H | H]; nia.
Qed.

Lemma lead2_nonzero b :
  b < 256 -> (b <? 0xC2) = false -> (b <? 0xE0) = true ->
  N.land b 0x1F <> 0.
Proof.
  intros Hb H1 H2.
  pose proof (forall_bytes
                (fun b => implb (negb (b <? 0xC2) && (b <? 0xE0))
                                (negb (N.land b 0x1F =? 0)))
                ltac:(vm_compute; reflexivity) b Hb) as H.
  cbv beta in H. rewrite H1, H2 in H. simpl in H.
  apply negb_true_iff, N.eqb_neq in H. exact H.
Qed.

Lemma lead3_nonzero b :
  b < 256 -> (b <? 0xE0) = false -> (b <? 0xF0) = true ->
  (b =? 0xE0) = false -> N.land b 0x0F <> 0.
Proof.
  intros Hb H1 H2 H3.
  pose proof (forall_bytes
                (fun b => implb (negb (b <? 0xE0) && (b <? 0xF0)
                                 && negb (b =? 0xE0))
                                (negb (N.land b 0x0F =? 0)))
                ltac:(vm_compute; reflexivity) b Hb) as H.
  cbv beta in H. rewrite H1, H2, H3 in H. simpl in H.
  apply negb_true_iff, N.eqb_neq in H. exact H.
Qed.

Lemma lead4_nonzero b :
  b < 256 -> (b <? 0xF0) = false -> (b <? 0xF5) = true ->
  (b =? 0xF0) = false -> N.land b 0x07 <> 0.
Proof.
  intros Hb H1 H2 H3.
  pose proof (forall_bytes
                (fun b => implb (negb (b <? 0xF0) && (b <? 0xF5)
                                 && negb (b =? 0xF0))
                                (negb (N.land b 0x07 =? 0)))
                ltac:(vm_compute; reflexivity) b Hb) as H.
  cbv beta in H. rewrite H1, H2, H3 in H. simpl in H.
  apply negb_true_iff, N.eqb_neq in H. exact H.
Qed.

(** a continuation byte from [0x90] on carries a bit *)
Lemma cont_high_nonzero b :
  b < 256 -> is_cont b = true -> (b <? 0x90) = false ->
  N.land b 0x3F <> 0.
Proof.
  intros Hb H1 H2.
  pose proof (forall_bytes
                (fun b => implb (is_cont b && negb (b <? 0x90))
                                (negb (N.land b 0x3F =? 0)))
                ltac:(vm_compute; reflexivity) b Hb) as H.
  cbv beta in H. rewrite H1, H2 in H. simpl in H.
  apply negb_true_iff, N.eqb_neq in H. exact H.
Qed.

Lemma ltb_false_weaken b m n :
  m <= n -> (b <? n) = false -> (b <? m) = false.
Proof.
  intros Hmn H. apply N.ltb_ge in H. apply N.ltb_ge. lia.
Qed.

(** text decoded from bytes without a NUL holds no NUL *)
Lemma decode_utf8_no_nul s out :
  is_bytes s -> ~ In 0 s -> decode_utf8 s = Some out -> ~ In 0 out.
Proof.
  remember (length s) as n eqn:Hn. revert s Hn out.
  induction n as [n IH] using (well_founded_induction Wf_nat.lt_wf).
  intros [| b0 t0] Hn out Hb Hz; subst n.
  - intros H; injection H as <-. intros [].
  - assert (forall t o, (length t < length (b0 :: t0))%nat ->
                        incl t t0 -> decode_utf8 t = Some o -> ~ In 0 o)
      as Hrec.
    { intros t o Hl Hi. apply (IH (length t) Hl t eq_refl).
      - unfold is_bytes in *. rewrite Forall_forall in *.
        intros y Hy. apply Hb. right. apply Hi, Hy.
      - intros H0. apply Hz. right. apply Hi, H0. }
    assert (b0 <> 0) as Hb0 by (intros ->; apply Hz; left; reflexivity).
    assert (b0 < 256) as Hlt0 by (inversion Hb; assumption).
    cbn [decode_utf8]. by_length b0.
    + intros H. apply option_map_cons_inv in H as (o' & H & ->).
      intros [E | Hin]; [congruence |].
      revert Hin. apply (Hrec t0 o'); [simpl; lia | apply incl_refl | exact H].
    + discriminate.
    + destruct t0 as [| b1 t1]; [discriminate |].
      destruct (negb (is_cont b1)); [discriminate |].
      intros H. apply option_map_cons_inv in H as (o' & H & ->).
      intros [E | Hin].
      * revert E. apply shiftl_sum_nonzero. left.
        apply lead2_nonzero; assumption.
      * revert Hin. apply (Hrec t1 o');
          [simpl; lia | intros y Hy; right; exact Hy | exact H].
    + destruct t0 as [| b1 [| b2 t2]]; try discriminate.
      assert (b1 < 256) as Hlt1.
      { unfold is_bytes in Hb. rewrite Forall_forall in Hb.
        apply Hb. right; left; reflexivity. }
      destruct (is_cont b1) eqn:Hc1; [| discriminate].
      destruct (is_cont b2) eqn:Hc2; [| discriminate].
      cbn [negb orb].
      destruct (b0 =? 224) eqn:He; cbn [andb].
      * destruct (b1 <? 160) eqn:Hh; [discriminate |].
        intros H. apply option_map_cons_inv in H as (o' & H & ->).
        intros [E | Hin].
        -- revert E. rewrite <- N.add_assoc.
           apply shiftl_sum_nonzero. right.
           apply shiftl_sum_nonzero. left.
           apply cont_high_nonzero; try assumption.
           apply (ltb_false_weaken b1 144 160); [lia | assumption].
        -- revert Hin. apply (Hrec t2 o');
             [simpl; lia | intros y Hy; right; right; exact Hy | exact H].
      * intros H. apply option_map_cons_inv in H as (o' & H & ->).
        intros [E | Hin].
        -- revert E. rewrite <- N.add_assoc.
           apply shiftl_sum_nonzero. left.
           apply lead3_nonzero; assumption.
        -- revert Hin. apply (Hrec t2 o');
             [simpl; lia | intros y Hy; right; right; exact Hy | exact H].
    + destruct t0 as [| b1 [| b2 [| b3 t3]]]; try discriminate.
      assert (b1 < 256) as Hlt1.
      { unfold is_bytes in Hb. rewrite Forall_forall in Hb.
        apply Hb. right; left; reflexivity. }
      destruct (is_cont b1) eqn:Hc1; [| discriminate].
      destruct (is_cont b2) eqn:Hc2; [| discriminate].
      destruct (is_cont b3) eqn:Hc3; [| discriminate].
      cbn [negb orb].
      destruct (b0 =? 240) eqn:He; cbn [andb orb].
      * destruct (b1 <? 144) eqn:Hh; [discriminate |]. cbn [orb].
        destruct ((b0 =? 244) && (143 <? b1)); [discriminate |].
        intros H. apply option_map_cons_inv in H as (o' & H & ->).
        intros [E | Hin].
        -- revert E. rewrite <- !N.add_assoc.
           apply shiftl_sum_nonzero. right.
           apply shiftl_sum_nonzero. left.
           apply cont_high_nonzero; assumption.
        -- revert Hin. apply (Hrec t3 o');
             [simpl; lia | intros y Hy; do 3 right; exact Hy | exact H].
      * destruct ((b0 =? 244) && (143 <? b1)); [discriminate |].
        intros H. apply option_map_cons_inv in H as (o' & H & ->).
        intros [E | Hin].
        -- revert E. rewrite <- !N.add_assoc.
           apply shiftl_sum_nonzero. left.
           apply lead4_nonzero; assumption.
        -- revert Hin. apply (Hrec t3 o');
             [simpl; lia | intros y Hy; do 3 right; exact Hy | exact H].
    + discriminate.
Qed.

End utf8_Facts.

(** ** [_decode_url] *)
Section DecodeFacts.
Context `{E : Externals}.

Lemma bytewise_nul_safe enc : bytewise enc -> nul_safe enc.
Proof.
  intros (table & Hd & _ & Hz) s Hs. rewrite Hd.
  eexists; split; [reflexivity |]. rewrite in_flat_map.
  intros (b & Hb & Hin). apply (Hz b); [| exact Hin].
  intros ->. exact (Hs Hb).
Qed.

Lemma _decode_url_wire self url_string raw :
  wire self url_string = Ok raw ->
  _decode_url self url_string
  = match pystr.decode_utf8 (prepared raw) with
    | Some u => Ok u
    | None => str_decode_ignore (_encoding self) (prepared raw)
    end.
Proof.
  unfold wire, _decode_url. intros H.
  assert (forall b : seq,
             (dec <- Ok b ;;
              try_except
                (pystr.decode_UTF8
                   (fold_left (fun d '(sch, repl) => pystr.replace sch repl d)
                              SAFE_CHARS (urllib.unquote dec)))
                isinstance_UnicodeDecodeError
                (str_decode_ignore
                   (_encoding self)
                   (fold_left
                      (fun d '(sch, repl) => pystr.replace sch repl d)
                      SAFE_CHARS (urllib.unquote dec))))
             = match pystr.decode_utf8 (prepared b) with
               | Some u => Ok u
               | None => str_decode_ignore (_encoding self) (prepared b)
               end) as Hb.
  { intros b. unfold bind, prepared, pystr.decode_UTF8, try_except.
    destruct (pystr.decode_utf8 _); reflexivity. }
  destruct url_string as [b | u].
  - injection H as ->. apply Hb.
  - rewrite H. apply Hb.
Qed.

(** where the prepared bytes hold [%00], so does the text, if the bytes
    are UTF-8 or the charset decodes byte by byte *)
Lemma decoded_around_marker self url_string raw A B :
  wire self url_string = Ok raw ->
  prepared raw = A ++ lit "%00" ++ B ->
  shows_marker self url_string raw A B.
Proof.
  intros Hw Hp. unfold shows_marker.
  rewrite (_decode_url_wire _ _ _ Hw). split.
  - intros out Hout. rewrite Hout. rewrite Hp in Hout.
    change (A ++ lit "%00" ++ B) with (A ++ 37 :: 48 :: 48 :: B) in Hout.
    apply utf8_Facts.decode_utf8_ascii_cut in Hout
      as (oa & o1 & Ha & H1 & ->); [| reflexivity].
    apply (utf8_Facts.decode_utf8_ascii_cut [] 48) in H1
      as (o2 & o3 & H2 & H3 & ->); [| reflexivity].
    apply (utf8_Facts.decode_utf8_ascii_cut [] 48) in H3
      as (o4 & ob & H4 & Hb & ->); [| reflexivity].
    injection H2 as <-. injection H4 as <-.
    exists oa, ob. repeat split; assumption || reflexivity.
  - intros Hnone (table & Hd & Hascii & _). rewrite Hnone, Hp.
    exists (flat_map table A), (flat_map table B).
    rewrite !Hd, !flat_map_app. repeat split. f_equal. f_equal. f_equal.
    change (lit "%00") with [37; 48; 48]. cbn [flat_map].
    rewrite !Hascii by reflexivity. reflexivity.
Qed.

End DecodeFacts.




Lemma Plain_latin_1_bytewise : @bytewise Plain.externals "iso-8859-1".
Proof.
  exists (fun b => [b]). repeat split.
  - intros s. simpl. unfold codecs.latin_1_decode_ignore. f_equal.
    induction s as [| c s IH]; simpl; congruence.
  - intros b Hb [H | []]. congruence.
Qed.

(** C5, as stated, fails: a parser of charset [utf-16-le] is constructed,
    and under that charset the bytes
    [http://a/], NUL, [0xFF], [0xFF] are prepared with [%00] in them, are
    not UTF-8, and are read two by two; no [%] is left in the text. *)
Lemma nul_lost_under_utf_16 :
  __init__ (Plain.response "utf-16-le" (lit "http://example.com/") None)
  = Ok (Plain.parser "utf-16-le")
  /\ _decode_url (Plain.parser "utf-16-le")
              (Str (lit "http://a/" ++ 0 :: [255; 255]))
  = Ok [0x7468; 0x7074; 0x2F3A; 0x612F; 0x252F; 0x3030; 0xFFFF]
  /\ ~ (exists a b,
           [0x7468; 0x7074; 0x2F3A; 0x612F; 0x252F; 0x3030; 0xFFFF]
           = a ++ lit "%00" ++ b).
Proof.
  split; [reflexivity |]. split; [reflexivity |].
  intros (a & b & H).
  assert (In 37 [0x7468; 0x7074; 0x2F3A; 0x612F; 0x252F; 0x3030; 0xFFFF])
    as Hin by (rewrite H; apply in_or_app; right; left; reflexivity).
  simpl in Hin. intuition discriminate.
Qed.

(** C5, amended: a NUL byte among the bytes to decode is replaced, where
    it stands, by [%00] in the bytes handed to the text decoders, which
    hold no NUL; the returned text shows [%00] there when those bytes are
    valid UTF-8 and, on the fallback path, when the charset of the parser
    decodes byte by byte with ASCII unchanged. *)
Theorem nul_becomes_visible `{E : Externals} (self : BaseParser)
        (url_string : pystring) (pre post : seq) :
  wire self url_string = Ok (pre ++ 0 :: post) ->
  prepared (pre ++ 0 :: post) = prepared pre ++ lit "%00" ++ prepared post
  /\ ~ In 0 (prepared (pre ++ 0 :: post))
  /\ shows_marker self url_string (pre ++ 0 :: post)
                  (prepared pre) (prepared post).
Proof.
  intros Hw. split; [apply replace_Facts.prepared_nul |].
  split; [apply replace_Facts.prepared_no_nul |].
  apply decoded_around_marker; [exact Hw |].
  apply replace_Facts.prepared_nul.
Qed.

Lemma nul_becomes_visible_witness :
  _decode_url (Plain.parser "iso-8859-1")
              (Str (lit "http://a/" ++ 0 :: [233]))
  = Ok (lit "http://a/" ++ lit "%00" ++ [233]).
Proof.
  destruct (proj2 (proj2 (proj2 (nul_becomes_visible
                                   (Plain.parser "iso-8859-1")
                                   (Str (lit "http://a/" ++ 0 :: [233]))
                                   (lit "http://a/") [233] eq_refl)))
                  eq_refl Plain_latin_1_bytewise)
    as (da & db & Ha & Hb & H).
  vm_compute in Ha, Hb. injection Ha as <-. injection Hb as <-.
  exact H.
Defined.

(** C9, as stated, fails: a parser of charset [utf-16-le] is
    constructed, and under that charset the escape [%00]
    of [http://a/%00] followed by the bytes [0xFF], [0xFF] does not come
    out as the three characters [%00]. *)
Lemma escape_lost_under_utf_16 :
  __init__ (Plain.response "utf-16-le" (lit "http://example.com/") None)
  = Ok (Plain.parser "utf-16-le")
  /\ _decode_url (Plain.parser "utf-16-le")
              (Str (lit "http://a/%00" ++ [255; 255]))
  = Ok [0x7468; 0x7074; 0x2F3A; 0x612F; 0x252F; 0x3030; 0xFFFF]
  /\ ~ (exists a b,
           [0x7468; 0x7074; 0x2F3A; 0x612F; 0x252F; 0x3030; 0xFFFF]
           = a ++ lit "%00" ++ b).
Proof.
  split; [reflexivity |]. split; [reflexivity |].
  intros (a & b & H).
  assert (In 48 (a ++ lit "%00" ++ b)) as Hin
      by (apply in_or_app; right; right; left; reflexivity).
  rewrite <- H in Hin. simpl in Hin. intuition discriminate.
Qed.

(** C9, amended: the bytes handed to the text decoders never hold a NUL,
    a NUL byte and the escape [%00] both standing there as [%00]; the
    returned text holds no U+0000 when those bytes are valid UTF-8 and, on
    the fallback path, when the charset of the parser makes no U+0000 out
    of other bytes; and it shows the escape as [%00] when the bytes are
    valid UTF-8 or the charset decodes byte by byte with ASCII
    unchanged. *)
Theorem decode_url_no_nul `{E : Externals} (self : BaseParser)
        (url_string : pystring) (raw : seq) :
  wire self url_string = Ok raw ->
  is_bytes raw ->
  ~ In 0 (prepared raw)
  /\ (forall out, pystr.decode_utf8 (prepared raw) = Some out ->
                  _decode_url self url_string = Ok out /\ ~ In 0 out)
  /\ (pystr.decode_utf8 (prepared raw) = None ->
      nul_safe (_encoding self) ->
      exists out, _decode_url self url_string = Ok out /\ ~ In 0 out)
  /\ (forall pre post,
         raw = pre ++ lit "%00" ++ post ->
         prepared raw = prepared pre ++ lit "%00" ++ prepared post
         /\ shows_marker self url_string raw (prepared pre) (prepared post)).
Proof.
  intros Hw Hb.
  pose proof (replace_Facts.prepared_no_nul raw) as Hz.
  split; [exact Hz |]. split; [| split].
  - intros out Hout. rewrite (_decode_url_wire _ _ _ Hw), Hout.
    split; [reflexivity |].
    apply (utf8_Facts.decode_utf8_no_nul (prepared raw));
      [apply replace_Facts.prepared_is_bytes | |]; assumption.
  - intros Hnone Hsafe. rewrite (_decode_url_wire _ _ _ Hw), Hnone.
    apply Hsafe, Hz.
  - intros pre post ->.
    split; [apply replace_Facts.prepared_pct00 |].
    apply decoded_around_marker; [exact Hw |].
    apply replace_Facts.prepared_pct00.
Qed.

Lemma decode_url_no_nul_witness :
  exists out,
    _decode_url (Plain.parser "iso-8859-1")
                (Str (lit "http://a/%00" ++ 0 :: [233])) = Ok out
    /\ ~ In 0 out.
Proof.
  refine (proj1 (proj2 (proj2 (decode_url_no_nul
                                 (Plain.parser "iso-8859-1")
                                 (Str (lit "http://a/%00" ++ 0 :: [233]))
                                 (lit "http://a/%00" ++ 0 :: [233])
                                 eq_refl _)))
                eq_refl (bytewise_nul_safe _ Plain_latin_1_bytewise)).
  repeat constructor.
Defined.

(** * Further properties of the pattern *)
Module URL_RE_More.
Import URL_RE.

Lemma run_spec s :
  s = fst (run s) ++ snd (run s)
  /\ clean (fst (run s)) /\ ends_match (snd (run s)).
Proof.
  induction s as [| c s IH]; simpl; [repeat split |].
  destruct (excluded c) eqn:Hc; simpl.
  - repeat split. exact Hc.
  - destruct (run s) as [r rest]; simpl in *.
    destruct IH as (IH1 & IH2 & IH3).
    repeat split; [congruence | | assumption].
    unfold clean in *. simpl. rewrite Hc, IH2. reflexivity.
Qed.

Lemma starts_with_split p s :
  starts_with p s = true -> s = p ++ skipn (length p) s.
Proof.
  revert s; induction p as [| a p IH]; intros s; [reflexivity |].
  destruct s as [| c s]; simpl; [discriminate |].
  intros H. apply andb_true_iff in H as (Ha & H).
  apply N.eqb_eq in Ha as ->. f_equal. apply IH, H.
Qed.

Lemma clean_app a b : clean a -> clean b -> clean (a ++ b).
Proof.
  unfold clean. rewrite forallb_app. intros -> ->. reflexivity.
Qed.

Lemma match_at_spec s groups rest :
  match_at s = Some (groups, rest) ->
  s = fst (fst groups) ++ rest
  /\ clean (fst (fst groups))
  /\ ends_match rest
  /\ (7 <= length (fst (fst groups)))%nat.
Proof.
  unfold match_at.
  destruct (starts_with (lit "http://") s) eqn:H1.
  - pose proof (run_spec (skipn 7 s)) as (Hs & Hc & He).
    destruct (run (skipn 7 s)) as [r rest']. cbn [fst snd] in Hs, Hc, He.
    intros H; injection H as <- <-. cbn [fst].
    apply starts_with_split in H1.
    change (length (lit "http://")) with 7%nat in H1.
    repeat split.
    + rewrite H1, Hs. reflexivity.
    + change (clean (lit "http://" ++ r)).
      apply clean_app; [reflexivity | assumption].
    + assumption.
    + change (7 <= length (lit "http://" ++ r))%nat.
      rewrite length_app. change (length (lit "http://")) with 7%nat. lia.
  - destruct (starts_with (lit "https://") s) eqn:H2; [| discriminate].
    pose proof (run_spec (skipn 8 s)) as (Hs & Hc & He).
    destruct (run (skipn 8 s)) as [r rest']. cbn [fst snd] in Hs, Hc, He.
    intros H; injection H as <- <-. cbn [fst].
    apply starts_with_split in H2.
    change (length (lit "https://")) with 8%nat in H2.
    repeat split.
    + rewrite H2, Hs. reflexivity.
    + change (clean (lit "https://" ++ r)).
      apply clean_app; [reflexivity | assumption].
    + assumption.
    + change (7 <= length (lit "https://" ++ r))%nat.
      rewrite length_app. change (length (lit "https://")) with 8%nat. lia.
Qed.

(** X1: every match [findall] returns is a piece of the text that holds
    none of the excluded characters and cannot be extended: the text
    ends after it or goes on with an excluded character. *)
Theorem findall_match_is_maximal_run (s : seq) (g : seq * seq * seq) :
  In g (findall_seq s) ->
  exists pre post,
    s = pre ++ fst (fst g) ++ post
    /\ clean (fst (fst g))
    /\ ends_match post.
Proof.
  unfold findall_seq. generalize (length s) as fuel. intros fuel.
  revert s; induction fuel as [| fuel IH]; intros s; simpl; [intros [] |].
  destruct s as [| c s]; [intros [] |].
  destruct (match_at (c :: s)) as [[groups rest] |] eqn:Hm.
  - apply match_at_spec in Hm as (Hs & Hc & He & _).
    intros [<- | Hin].
    + exists [], rest. auto.
    + apply IH in Hin as (pre & post & -> & Hc' & He').
      exists (fst (fst groups) ++ pre), post.
      rewrite <- app_assoc. auto.
  - intros Hin. apply IH in Hin as (pre & post & -> & Hc' & He').
    exists (c :: pre), post. auto.
Qed.

Lemma findall_match_is_maximal_run_witness :
  exists pre post,
    lit "<a href='http://a.example/x'>"
    = pre ++ lit "http://a.example/x" ++ post
    /\ clean (lit "http://a.example/x")
    /\ ends_match post.
Proof.
  exact (findall_match_is_maximal_run
           (lit "<a href='http://a.example/x'>")
           (lit "http://a.example/x", lit "http", [])
           (or_introl eq_refl)).
Defined.

Lemma findall_from_disjoint fuel s :
  (matched_length (findall_from fuel s) <= length s)%nat
  /\ (7 * length (findall_from fuel s)
      <= matched_length (findall_from fuel s))%nat.
Proof.
  revert s; induction fuel as [| fuel IH]; intros s;
    [cbn; lia |].
  destruct s as [| c s]; [cbn; lia |].
  cbn [findall_from].
  destruct (match_at (c :: s)) as [[groups rest] |] eqn:Hm.
  - apply match_at_spec in Hm as (Hs & _ & _ & H7).
    destruct (IH rest) as (IH1 & IH2).
    apply (f_equal (@length N)) in Hs. rewrite length_app in Hs.
    unfold matched_length, list_sum in *.
    cbn [map fold_right length] in *. clear IH. unfold seq in *.
    set (total := fold_right Nat.add 0%nat _) in *.
    set (count := length (findall_from fuel rest)) in *.
    split; lia.
  - destruct (IH s) as (IH1 & IH2). cbn [length]. split; lia.
Qed.

(** X2: the matches of one scan do not overlap: together they take no
    more characters than the text has, each of them at least the seven
    of [http://]. *)
Theorem findall_matches_disjoint (s : seq) :
  (matched_length (findall_seq s) <= length s)%nat
  /\ (7 * length (findall_seq s) <= matched_length (findall_seq s))%nat
  /\ (7 * length (findall (Str s)) <= length s)%nat
  /\ (7 * length (findall (Unicode s)) <= length s)%nat.
Proof.
  destruct (findall_from_disjoint (length s) s) as (H1 & H2).
  fold (findall_seq s) in H1, H2.
  unfold findall. rewrite !length_map. lia.
Qed.

(** X3: a scan finds nothing exactly when neither [http://] nor
    [https://] occurs in the text. *)
Theorem findall_empty_iff (s : seq) :
  findall_seq s = []
  <-> occurs (lit "http://") s = false /\ occurs (lit "https://") s = false.
Proof.
  split.
  - induction s as [| c s IH]; [intros _; split; reflexivity |].
    rewrite URL_RE_Facts.findall_seq_eq.
    destruct (match_at (c :: s)) as [[groups rest] |] eqn:Hm;
      [discriminate |].
    intros H. destruct (IH H) as (IH1 & IH2).
    unfold match_at in Hm.
    destruct (starts_with (lit "http://") (c :: s)) eqn:H1.
    { destruct (run (skipn 7 (c :: s))); discriminate. }
    destruct (starts_with (lit "https://") (c :: s)) eqn:H2.
    { destruct (run (skipn 8 (c :: s))); discriminate. }
    cbn [occurs]. rewrite H1, H2, IH1, IH2. split; reflexivity.
  - intros (H1 & H2). apply URL_RE_Facts.findall_from_none; assumption.
Qed.

End URL_RE_More.

(** * Further properties of the extraction *)
Section ExtractionMore.
Context `{E : Externals}.

Lemma scan_set_re_urls self s0 s matches :
  scan (set_re_urls self s0) s matches = scan self s matches.
Proof.
  revert s; induction matches as [| url rest IH]; intros s; [reflexivity |].
  cbn [scan].
  change (candidate (set_re_urls self s0) url) with (candidate self url).
  destruct (candidate self url) as [u | e]; [apply IH |].
  destruct (isinstance_ValueError e); [apply IH | reflexivity].
Qed.

Lemma set_add_objs s u :
  map obj (set_add s u) = map obj s \/ map obj (set_add s u) = map obj s ++ [u].
Proof.
  destruct (set_add_grows s u) as [-> | ->]; [left; reflexivity |].
  right. rewrite map_app. reflexivity.
Qed.

(** whatever is in the set after the loop was there before or was built
    from a match *)
Lemma scan_sound self s matches s' :
  scan self s matches = Ok s' ->
  forall u, In u (map obj s') ->
            In u (map obj s)
            \/ exists url, In url matches /\ candidate self url = Ok u.
Proof.
  revert s; induction matches as [| url rest IH]; intros s.
  - intros H; injection H as <-. auto.
  - destruct (candidate self url) as [u0 | e] eqn:Hc.
    + rewrite (scan_cons_ok _ _ _ _ _ Hc). intros H u Hu.
      destruct (IH _ H u Hu) as [Hin | (url' & Hin & Hc')].
      * destruct (set_add_objs s u0) as [Heq | Heq]; rewrite Heq in Hin.
        -- left; assumption.
        -- apply in_app_iff in Hin as [Hin | [<- | []]];
             [left; assumption |].
           right. exists url. split; [left; reflexivity | assumption].
      * right. exists url'. split; [right; assumption | assumption].
    + destruct (isinstance_ValueError e) eqn:Hv;
        [| rewrite (scan_cons_abort _ _ _ _ _ Hc Hv); discriminate].
      rewrite (scan_cons_raise _ _ _ _ _ Hc Hv). intros H u Hu.
      destruct (IH _ H u Hu) as [Hin | (url' & Hin & Hc')];
        [left; assumption |].
      right. exists url'. split; [right; assumption | assumption].
Qed.

(** the loop changes nothing when every URL it builds is in the set
    and every exception is a [ValueError] *)
Lemma scan_absorbed self s matches :
  untouched s ->
  (forall url e, In url matches -> candidate self url = Raise e ->
                 isinstance_ValueError e = true) ->
  (forall url u, In url matches -> candidate self url = Ok u ->
                 In u (map obj s)) ->
  scan self s matches = Ok s.
Proof.
  intros (Hh & _). induction matches as [| url rest IH]; intros Hval Hall;
    [reflexivity |].
  destruct (candidate self url) as [u | e] eqn:Hc.
  - rewrite (scan_cons_ok _ _ _ _ _ Hc).
    assert (set_add s u = s) as ->.
    { unfold set_add.
      rewrite (proj2 (set_contains_untouched s u Hh));
        [reflexivity |].
      apply (Hall url); [left; reflexivity | assumption]. }
    apply IH; intros url' x Hin; [apply Hval | apply Hall];
      right; assumption.
  - rewrite (scan_cons_raise _ _ _ _ _ Hc
                             (Hval url e (or_introl eq_refl) Hc)).
    apply IH; intros url' x Hin; [apply Hval | apply Hall];
      right; assumption.
Qed.

(** X4: after a call on a parser whose set is empty, the set holds
    exactly the normalized URLs built from the matches of the text: every
    match that decodes and constructs is there, and nothing else is. *)
Theorem extracted_urls_characterized (self : BaseParser)
        (doc_str : pystring) (p' : BaseParser) :
  _re_urls self = [] ->
  _regex_url_parse self doc_str = Ok p' ->
  forall v,
    In v (map obj (_re_urls p'))
    <-> exists url u, In url (URL_RE.findall doc_str)
                      /\ candidate self url = Ok u
                      /\ v = normalize_url u.
Proof.
  intros Hempty Hp v.
  apply _regex_url_parse_inv in Hp as (s' & Hs & ->).
  rewrite Hempty in Hs. cbn [_re_urls set_re_urls].
  assert (map obj (normalize_all s') = map normalize_url (map obj s'))
    as -> by (unfold normalize_all; rewrite !map_map; reflexivity).
  rewrite in_map_iff. split.
  - intros (u & <- & Hu).
    destruct (scan_sound _ _ _ _ Hs u Hu) as [[] | (url & Hin & Hc)].
    exists url, u. auto.
  - intros (url & u & Hin & Hc & ->). exists u. split; [reflexivity |].
    assert (untouched []) as H0 by (split; constructor).
    exact (proj2 (scan_untouched _ _ _ _ H0 Hs) url u Hin Hc).
Qed.

(** X5: a call changes nothing of the parser but the set; the entries
    that were there keep their place and the hash they were added under,
    their objects normalized once more, and new entries come after them,
    at most one for each match. *)
Theorem regex_url_parse_frame (self : BaseParser) (doc_str : pystring)
        (p' : BaseParser) :
  _regex_url_parse self doc_str = Ok p' ->
  _base_url p' = _base_url self
  /\ _baseDomain p' = _baseDomain self
  /\ _rootDomain p' = _rootDomain self
  /\ _encoding p' = _encoding self
  /\ exists added,
      _re_urls p' = normalize_all (_re_urls self) ++ added
      /\ (length added <= length (URL_RE.findall doc_str))%nat.
Proof.
  intros Hp. apply _regex_url_parse_inv in Hp as (s' & Hs & ->).
  repeat split.
  apply scan_appends in Hs as (added & -> & Hl).
  exists (normalize_all added). cbn [_re_urls set_re_urls].
  unfold normalize_all. rewrite map_app, length_map. auto.
Qed.


(** X7: when every URL built from a match of the text is its own
    normal form, a second call over the same text leaves the parser as
    the first call left it. *)
Theorem second_pass_is_idle (self : BaseParser) (doc_str : pystring)
        (p1 : BaseParser) :
  _re_urls self = [] ->
  (forall url u, In url (URL_RE.findall doc_str) ->
                 candidate self url = Ok u -> normalize_url u = u) ->
  _regex_url_parse self doc_str = Ok p1 ->
  _regex_url_parse p1 doc_str = Ok p1.
Proof.
  intros Hempty Hfix Hp.
  apply _regex_url_parse_inv in Hp as (s' & Hs & ->).
  rewrite Hempty in Hs.
  assert (untouched []) as H0 by (split; constructor).
  destruct (scan_untouched _ _ _ _ H0 Hs) as (Hu & Hall).
  assert (normalize_all s' = s') as Hn.
  { apply normalize_all_normalized. apply Forall_forall. intros e He.
    destruct (scan_sound _ _ _ _ Hs (obj e) (in_map obj _ _ He))
      as [[] | (url & Hin & Hc)].
    exact (Hfix url _ Hin Hc). }
  rewrite Hn. unfold _regex_url_parse.
  rewrite scan_set_re_urls. cbn [_re_urls set_re_urls].
  rewrite (scan_absorbed self s' _ Hu
                         (proj1 (scan_returns_iff self [] _)
                                (ex_intro _ s' Hs))
                         Hall).
  cbn [bind].
  rewrite Hn. reflexivity.
Qed.

(** X8: when the text has one match and the URL built from it is not
    its own normal form, a second call over the same text adds the URL
    once more: the object of the first call is no longer equal to it. *)
Theorem second_pass_duplicates (self : BaseParser) (doc_str : pystring)
        url (u : URL) :
  _re_urls self = [] ->
  URL_RE.findall doc_str = [url] ->
  candidate self url = Ok u ->
  normalize_url u <> u ->
  exists p1 p2,
    _regex_url_parse self doc_str = Ok p1
    /\ _regex_url_parse p1 doc_str = Ok p2
    /\ _re_urls p1
       = [{| cached_hash := URL_hash u; obj := normalize_url u |}]
    /\ _re_urls p2
       = [{| cached_hash := URL_hash u;
             obj := normalize_url (normalize_url u) |};
          {| cached_hash := URL_hash u; obj := normalize_url u |}].
Proof.
  intros Hempty Hm Hc Hne.
  assert (scan self [] [url]
          = Ok [{| cached_hash := URL_hash u; obj := u |}]) as H1.
  { rewrite (scan_cons_ok _ _ _ _ _ Hc). reflexivity. }
  assert (scan self [{| cached_hash := URL_hash u; obj := normalize_url u |}]
               [url]
          = Ok [{| cached_hash := URL_hash u; obj := normalize_url u |};
                {| cached_hash := URL_hash u; obj := u |}]) as H2.
  { rewrite (scan_cons_ok _ _ _ _ _ Hc). unfold set_add, set_contains.
    cbn [existsb cached_hash obj].
    destruct (URL_eq_dec (normalize_url u) u) as [Heq | _];
      [contradiction |].
    rewrite andb_false_r. reflexivity. }
  do 2 eexists. split; [| split; [| split]].
  - unfold _regex_url_parse. rewrite Hempty, Hm, H1. reflexivity.
  - unfold _regex_url_parse. rewrite scan_set_re_urls, Hm.
    cbn [_re_urls set_re_urls normalize_all map cached_hash obj].
    rewrite H2. reflexivity.
  - reflexivity.
  - reflexivity.
Qed.

End ExtractionMore.

(** * Further properties of the decoder *)

Module decode_More.
Import urllib urllib_Facts.

Lemma unquote_no_pct s : ~ In pct s -> unquote s = s.
Proof.
  induction s as [| c s IH]; [reflexivity |].
  intros Hn. rewrite unquote_cons_other.
  - rewrite IH; [reflexivity |]. intros H; apply Hn; right; exact H.
  - intros ->. apply Hn. left; reflexivity.
Qed.

Lemma replace_absent sch repl s :
  ~ In sch s -> pystr.replace sch repl s = s.
Proof.
  unfold pystr.replace.
  induction s as [| c s IH]; [reflexivity |].
  intros Hn. cbn [flat_map].
  destruct (c =? sch) eqn:Hc.
  - apply N.eqb_eq in Hc as ->. exfalso. apply Hn. left; reflexivity.
  - rewrite IH; [reflexivity |]. intros H; apply Hn; right; exact H.
Qed.

Lemma decode_utf8_ascii s :
  Forall (fun c => c < 128) s -> pystr.decode_utf8 s = Some s.
Proof.
  induction 1 as [| c s Hc _ IH]; [reflexivity |].
  cbn [pystr.decode_utf8]. unfold pystr.utf8_code_length.
  rewrite (proj2 (N.ltb_lt c 128) Hc). cbv beta iota.
  rewrite IH. reflexivity.
Qed.

Lemma hexval_hexdigit d : d < 16 -> hexval (urllib.hexdigit d) = Some d.
Proof.
  intros Hd.
  pose proof (utf8_Facts.forall_bytes
                (fun d => implb (d <? 16)
                                match hexval (urllib.hexdigit d) with
                                | Some x => x =? d
                                | None => false
                                end)
                ltac:(vm_compute; reflexivity) d ltac:(lia)) as H.
  cbv beta in H. rewrite (proj2 (N.ltb_lt _ _) Hd) in H. cbn [implb] in H.
  destruct (hexval (urllib.hexdigit d)) as [x |]; [| discriminate].
  apply N.eqb_eq in H as ->. reflexivity.
Qed.

Lemma unquote_pct_escape bs :
  is_bytes bs -> unquote (flat_map urllib.pct_escape bs) = bs.
Proof.
  induction 1 as [| b bs Hb _ IH]; [reflexivity |].
  cbn [flat_map]. unfold urllib.pct_escape at 1. cbn [app].
  rewrite unquote_cons_pct. cbn [escape_at].
  rewrite !hexval_hexdigit.
  - rewrite IH. f_equal.
    pose proof (N.div_mod b 16 ltac:(discriminate)). lia.
  - apply N.mod_lt. discriminate.
  - apply N.Div0.div_lt_upper_bound. lia.
Qed.

End decode_More.

(** X9: [_decode_url] raises nothing of its own: an exception of it is
    the one the codec of the parser's charset raised, when encoding a
    [unicode] or when reading, under ['ignore'], prepared bytes that are
    not UTF-8; bytes that are UTF-8 never raise, and a [unicode] the
    codec encodes is decoded as the encoded [str] is. *)
Theorem decode_url_raises_what_codec_raises `{E : Externals}
        (self : BaseParser) :
  (forall url_string e,
      _decode_url self url_string = Raise e
      <-> (exists u, url_string = Unicode u
                     /\ unicode_encode (_encoding self) u = Raise e)
          \/ (exists raw, wire self url_string = Ok raw
                          /\ pystr.decode_utf8 (prepared raw) = None
                          /\ str_decode_ignore (_encoding self)
                                               (prepared raw) = Raise e))
  /\ (forall b text, pystr.decode_utf8 (prepared b) = Some text ->
                     _decode_url self (Str b) = Ok text)
  /\ (forall u b, unicode_encode (_encoding self) u = Ok b ->
                  _decode_url self (Unicode u) = _decode_url self (Str b)).
Proof.
  split; [| split].
  - intros url_string e. split; [apply _decode_url_raises |].
    intros [(u & -> & Hu) | (raw & Hw & Hn & Hr)].
    + unfold _decode_url. rewrite Hu. reflexivity.
    + rewrite (_decode_url_wire _ _ _ Hw), Hn. exact Hr.
  - intros b text Hd.
    rewrite (_decode_url_wire self (Str b) b eq_refl), Hd. reflexivity.
  - intros u b Hu.
    rewrite (_decode_url_wire self (Unicode u) b Hu),
      (_decode_url_wire self (Str b) b eq_refl). reflexivity.
Qed.

(** X10: a [str] of ASCII characters with no NUL and no percent sign
    decodes to itself, whatever the charset of the parser. *)
Theorem decode_url_plain_ascii `{E : Externals} (self : BaseParser)
        (b : seq) :
  plain_ascii b -> _decode_url self (Str b) = Ok b.
Proof.
  intros Hb. unfold plain_ascii in Hb. rewrite Forall_forall in Hb.
  rewrite (_decode_url_wire self (Str b) b eq_refl).
  rewrite replace_Facts.prepared_eq.
  rewrite decode_More.unquote_no_pct
    by (intros H; apply Hb in H; tauto).
  rewrite decode_More.replace_absent
    by (intros H; apply Hb in H; lia).
  rewrite decode_More.decode_utf8_ascii; [reflexivity |].
  apply Forall_forall. intros c Hc. apply Hb in Hc. tauto.
Qed.

(** X11: unquoting the escapes of a byte string gives the byte string
    back; so a [str] made of the escapes of NUL-free UTF-8 bytes decodes
    to the text those bytes encode, whatever the charset of the parser. *)
Theorem decode_url_escaped_utf8 `{E : Externals} (self : BaseParser)
        (bs : seq) :
  is_bytes bs ->
  urllib.unquote (flat_map urllib.pct_escape bs) = bs
  /\ (forall text, ~ In 0 bs -> pystr.decode_utf8 bs = Some text ->
                   _decode_url self (Str (flat_map urllib.pct_escape bs))
                   = Ok text).
Proof.
  intros Hb. pose proof (decode_More.unquote_pct_escape bs Hb) as Hu.
  split; [exact Hu |].
  intros text Hz Hd.
  rewrite (_decode_url_wire self (Str (flat_map urllib.pct_escape bs))
                            (flat_map urllib.pct_escape bs) eq_refl).
  rewrite replace_Facts.prepared_eq, Hu.
  rewrite decode_More.replace_absent by assumption.
  rewrite Hd. reflexivity.
Qed.

(** X12: unquoting works position by position: where a percent sign is
    followed by two hexadecimal digits the byte they write stands in the
    result, and where it is not the percent sign stays and unquoting goes
    on right after it. *)
Theorem unquote_at_percent (pre t : seq) :
  urllib.unquote (pre ++ urllib.pct :: t)
  = urllib.unquote pre
      ++ match urllib.escape_at t with
         | Some (c, r) => c :: urllib.unquote r
         | None => urllib.pct :: urllib.unquote t
         end.
Proof.
  rewrite unquote_Facts.unquote_app_stop by reflexivity.
  rewrite urllib_Facts.unquote_cons_pct. reflexivity.
Qed.

Section StoredHashes.
Context `{E : Externals}.

(** X13: after a call on a parser whose set is empty, each entry of the
    set holds the normal form of a URL built from a match under the hash
    of that URL as it was built, one entry for each such URL; so a key is
    found in the set only under the hash of a URL as it was built. *)
Theorem stored_hashes_are_of_built_urls (self : BaseParser)
        (doc_str : pystring) (p' : BaseParser) :
  _re_urls self = [] ->
  _regex_url_parse self doc_str = Ok p' ->
  exists us,
    NoDup us
    /\ _re_urls p' = map aged us
    /\ (forall u, In u us
                  <-> exists url, In url (URL_RE.findall doc_str)
                                  /\ candidate self url = Ok u)
    /\ (forall key,
           set_contains (_re_urls p') key = true
           <-> exists u, In u us /\ URL_hash u = URL_hash key
                         /\ normalize_url u = key).
Proof.
  intros Hempty Hp.
  apply _regex_url_parse_inv in Hp as (s' & Hs & ->).
  rewrite Hempty in Hs.
  assert (untouched []) as H0 by (split; constructor).
  destruct (scan_untouched _ _ _ _ H0 Hs) as ((Hh & Hnd) & Hall).
  assert (normalize_all s' = map aged (map obj s')) as Hn.
  { unfold normalize_all. rewrite map_map. apply map_ext_in.
    intros e He. rewrite Forall_forall in Hh. unfold aged.
    rewrite (Hh e He). reflexivity. }
  exists (map obj s'). cbn [_re_urls set_re_urls].
  split; [exact Hnd |]. split; [exact Hn |]. split.
  - intros u. split.
    + intros Hu. destruct (scan_sound _ _ _ _ Hs u Hu) as [[] | H]. exact H.
    + intros (url & Hin & Hc). exact (Hall url u Hin Hc).
  - intros key. rewrite Hn. unfold set_contains.
    rewrite existsb_exists. split.
    + intros (e & He & Hb). apply in_map_iff in He as (u & <- & Hu).
      apply andb_true_iff in Hb as (Hb1 & Hb2). cbn in Hb1, Hb2.
      apply N.eqb_eq in Hb1.
      destruct (URL_eq_dec (normalize_url u) key); [| discriminate].
      eauto.
    + intros (u & Hu & Hb & <-). exists (aged u).
      split; [apply in_map, Hu |]. cbn. rewrite Hb, N.eqb_refl.
      destruct (URL_eq_dec (normalize_url u) (normalize_url u));
        [reflexivity | contradiction].
Qed.

End StoredHashes.

Lemma extracted_urls_characterized_witness :
  In (lit "http://a.example/x")
     (map obj (_re_urls (after_call "iso-8859-1"
                           (Str (lit "<a href='http://A.example/x'>")))))
  <-> exists url u,
      In url (URL_RE.findall (Str (lit "<a href='http://A.example/x'>")))
      /\ candidate (Plain.parser "iso-8859-1") url = Ok u
      /\ lit "http://a.example/x" = @normalize_url Plain.externals u.
Proof.
  exact (extracted_urls_characterized
           (Plain.parser "iso-8859-1")
           (Str (lit "<a href='http://A.example/x'>"))
           (after_call "iso-8859-1" (Str (lit "<a href='http://A.example/x'>")))
           eq_refl eq_refl (lit "http://a.example/x")).
Defined.

Lemma regex_url_parse_frame_witness :
  _encoding (after_call "iso-8859-1" (Str (lit "see http://a.example/")))
  = "iso-8859-1"%string.
Proof.
  exact (proj1 (proj2 (proj2 (proj2
           (regex_url_parse_frame
              (Plain.parser "iso-8859-1")
              (Str (lit "see http://a.example/"))
              (after_call "iso-8859-1" (Str (lit "see http://a.example/")))
              eq_refl))))).
Defined.


Lemma second_pass_is_idle_witness :
  _regex_url_parse
    (after_call "iso-8859-1" (Str (lit "http://a.example/ http://b.example/x")))
    (Str (lit "http://a.example/ http://b.example/x"))
  = Ok (after_call "iso-8859-1"
                   (Str (lit "http://a.example/ http://b.example/x"))).
Proof.
  refine (second_pass_is_idle
            (Plain.parser "iso-8859-1")
            (Str (lit "http://a.example/ http://b.example/x"))
            (after_call "iso-8859-1"
                        (Str (lit "http://a.example/ http://b.example/x")))
            eq_refl _ eq_refl).
  intros url u [<- | [<- | []]] H; vm_compute in H; injection H as <-;
    reflexivity.
Defined.

Lemma second_pass_duplicates_witness :
  exists p1 p2 : @BaseParser Plain.externals,
    _regex_url_parse (Plain.parser "iso-8859-1")
                     (Str (lit "http://A.example/")) = Ok p1
    /\ _regex_url_parse p1 (Str (lit "http://A.example/")) = Ok p2
    /\ _re_urls p1
       = [@Build_entry Plain.externals
            (@URL_hash Plain.externals (lit "http://A.example/"))
            (lit "http://a.example/")]
    /\ _re_urls p2
       = [@Build_entry Plain.externals
            (@URL_hash Plain.externals (lit "http://A.example/"))
            (lit "http://a.example/");
          @Build_entry Plain.externals
            (@URL_hash Plain.externals (lit "http://A.example/"))
            (lit "http://a.example/")].
Proof.
  refine (second_pass_duplicates
            (Plain.parser "iso-8859-1") (Str (lit "http://A.example/"))
            (Str (lit "http://A.example/"), Str (lit "http"), Str [])
            (lit "http://A.example/") eq_refl eq_refl eq_refl _).
  intros H. vm_compute in H. discriminate H.
Defined.

Lemma stored_hashes_are_of_built_urls_witness :
  exists us : list (@URL Plain.externals),
    NoDup us
    /\ _re_urls (after_call "iso-8859-1" (Str (lit "see http://A.example/")))
       = map aged us
    /\ (forall u, In u us
                  <-> exists url,
                      In url (URL_RE.findall
                                (Str (lit "see http://A.example/")))
                      /\ candidate (Plain.parser "iso-8859-1") url = Ok u)
    /\ (forall key,
           set_contains
             (_re_urls (after_call "iso-8859-1"
                                   (Str (lit "see http://A.example/")))) key
           = true
           <-> exists u, In u us
                         /\ @URL_hash Plain.externals u
                            = @URL_hash Plain.externals key
                         /\ @normalize_url Plain.externals u = key).
Proof.
  exact (stored_hashes_are_of_built_urls
           (Plain.parser "iso-8859-1") (Str (lit "see http://A.example/"))
           (after_call "iso-8859-1" (Str (lit "see http://A.example/")))
           eq_refl eq_refl).
Defined.

Lemma decode_url_plain_ascii_witness :
  _decode_url (Plain.parser "utf-16-le") (Str (lit "http://a.example/x?y=1"))
  = Ok (lit "http://a.example/x?y=1").
Proof.
  refine (decode_url_plain_ascii (Plain.parser "utf-16-le")
                                 (lit "http://a.example/x?y=1") _).
  unfold plain_ascii. repeat constructor; discriminate.
Defined.

Lemma decode_url_escaped_utf8_witness :
  _decode_url (Plain.parser "iso-8859-1")
              (Str (lit "%68%74%74%70%3A%2F%2F%61%2F%C3%A9"))
  = Ok (lit "http://a/" ++ [233]).
Proof.
  refine (proj2 (decode_url_escaped_utf8
                   (Plain.parser "iso-8859-1")
                   (lit "http://a/" ++ [0xC3; 0xA9]) _)
                (lit "http://a/" ++ [233]) _ eq_refl).
  - repeat constructor.
  - intros H. vm_compute in H. intuition discriminate.
Defined.
